(** * Style-transfer pipeline and length-constrained refinement loop

    A shallow embedding of [genai_1_24.py] (request validation, prompt
    construction, dispatch and reply extraction) and of [main.py] (word
    counting, the bounded refinement loop and letter formatting), with the
    properties of their specification stated and proved over it. *)

From Stdlib Require Import String Ascii List ZArith NArith Bool Lia.
Import ListNotations.

Set Implicit Arguments.

(* ===================================================================== *)
(** ** Python strings *)
(* ===================================================================== *)

(** A Python [str] is a sequence of Unicode code points; [len] is the
    number of code points, not of bytes. *)
Module PyStr.

Definition codepoint := N.
Definition str := list codepoint.

(** [len(s)] *)
Definition len (s : str) : Z := Z.of_nat (length s).

(** [s == ''] *)
Definition is_empty (s : str) : bool :=
  match s with
  | [] => true
  | _ :: _ => false
  end.

(** Decoding of the UTF-8 bytes of a literal, so that the source's string
    literals can be written as they are. [need] continuation bytes are still
    expected and [acc] holds the bits read so far. *)
Fixpoint utf8_go (need : nat) (acc : N) (bs : list N) : str :=
  match bs with
  | [] => []
  | b :: bs' =>
      match need with
      | O =>
          if (b <? 128)%N then b :: utf8_go 0 0 bs'
          else if (b <? 224)%N then utf8_go 1 (b - 192) bs'
          else if (b <? 240)%N then utf8_go 2 (b - 224) bs'
          else utf8_go 3 (b - 240) bs'
      | S O => (acc * 64 + (b - 128))%N :: utf8_go 0 0 bs'
      | S n => utf8_go n (acc * 64 + (b - 128)) bs'
      end
  end.

Definition of_string (s : string) : str :=
  utf8_go 0 0 (map N_of_ascii (list_ascii_of_string s)).

Arguments of_string s%_string : simpl never.

(** Code points of the characters the source names by escapes. *)
Definition LF : codepoint := 10%N.      (* "\n" *)
Definition SPACE : codepoint := 32%N.   (* " " *)
Definition QUOTE : codepoint := 34%N.   (* the double quote *)

(** [str.isspace] on one character: the Unicode white space of CPython
    ([_PyUnicode_IsWhitespace]). *)
Definition isspace (c : codepoint) : bool :=
  ((9 <=? c) && (c <=? 13) || (28 <=? c) && (c <=? 32)
   || (c =? 133) || (c =? 160) || (c =? 5760)
   || (8192 <=? c) && (c <=? 8202)
   || (c =? 8232) || (c =? 8233) || (c =? 8239) || (c =? 8287)
   || (c =? 12288))%N.

(** [s.lstrip()], [s.rstrip()] and [s.strip()] with no argument. *)
Fixpoint lstrip (s : str) : str :=
  match s with
  | [] => []
  | c :: s' => if isspace c then lstrip s' else s
  end.

Definition rstrip (s : str) : str := rev (lstrip (rev s)).

Definition strip (s : str) : str := rstrip (lstrip s).

(** [not l] for a list [l]. *)
Definition is_empty_list {A} (l : list A) : bool :=
  match l with
  | [] => true
  | _ :: _ => false
  end.

(** [s.replace(a, b)] for one-character [a] and [b]. *)
Definition replace_char (a b : codepoint) (s : str) : str :=
  map (fun c => if (c =? a)%N then b else c) s.

(** More code points the sources name by escapes. *)
Definition CR : codepoint := 13%N.      (* "\r" *)
Definition ESC : codepoint := 27%N.     (* "\033" *)

(** [a == b] on strings. *)
Definition eqb (a b : str) : bool :=
  if list_eq_dec N.eq_dec a b then true else false.

(** The line boundaries of [str.splitlines]: LF, VT, FF, CR, FS, GS, RS,
    NEL, LS and PS. *)
Definition is_linebreak (c : codepoint) : bool :=
  ((10 <=? c) && (c <=? 13) || (28 <=? c) && (c <=? 30)
   || (c =? 133) || (c =? 8232) || (c =? 8233))%N.

(** [s.splitlines()]: a line ends at a line boundary, CR LF counting as
    one; the boundaries are dropped and a final boundary opens no empty
    line. [cur] is the line being read, in reverse. *)
Fixpoint splitlines_from (cur : str) (s : str) : list str :=
  match s with
  | [] =>
      match cur with
      | [] => []
      | _ :: _ => [rev cur]
      end
  | c :: s' =>
      if is_linebreak c then
        rev cur ::
        (if (c =? CR)%N then
           match s' with
           | c' :: s'' =>
               if (c' =? LF)%N then splitlines_from [] s''
               else splitlines_from [] s'
           | [] => splitlines_from [] s'
           end
         else splitlines_from [] s')
      else splitlines_from (c :: cur) s'
  end.

Definition splitlines (s : str) : list str := splitlines_from [] s.

(** [sep.join(l)] *)
Fixpoint join (sep : str) (l : list str) : str :=
  match l with
  | [] => []
  | x :: rest =>
      match rest with
      | [] => x
      | _ :: _ => x ++ sep ++ join sep rest
      end
  end.

End PyStr.
Import PyStr.

Abbreviation lit := of_string.

(* ===================================================================== *)
(** ** Python values, exceptions and the effect monad *)
(* ===================================================================== *)

(** The values [inference] can receive. [VPipeline] is an instance of
    [TextGenerationPipeline]; [VObject] is an instance of any other class,
    callable or not. *)
#[local] Unset Elimination Schemes.
Inductive PyVal : Type :=
| VNone
| VBool (b : bool)
| VInt (z : Z)
| VStr (s : str)
| VList (l : list PyVal)
| VPipeline
| VObject (class_name : string) (callable : bool).
#[local] Set Elimination Schemes.

(** [isinstance(v, str)], [isinstance(v, list)] and
    [isinstance(v, TextGenerationPipeline)]. *)
Definition isinstance_str (v : PyVal) : bool :=
  match v with VStr _ => true | _ => false end.

Definition isinstance_list (v : PyVal) : bool :=
  match v with VList _ => true | _ => false end.

Definition isinstance_TextGenerationPipeline (v : PyVal) : bool :=
  match v with VPipeline => true | _ => false end.

Inductive ExcClass : Type :=
| TypeError
| ValueError
| IndexError
| OtherError (name : string).

Record Exception : Type := mkExc { exc_class : ExcClass; exc_msg : str }.

(** A computation over a store [St] that returns a value or raises; the
    store survives a raise, as a Python object does. *)
Definition M (St A : Type) : Type := St -> (Exception + A) * St.

Definition ret {St A} (a : A) : M St A := fun st => (inr a, st).

Definition raise {St A} (e : Exception) : M St A := fun st => (inl e, st).

Definition bind {St A B} (c : M St A) (k : A -> M St B) : M St B :=
  fun st =>
    match c st with
    | (inr a, st') => k a st'
    | (inl e, st') => (inl e, st')
    end.

(** A pure step that may raise. *)
Definition lift {St A} (r : Exception + A) : M St A := fun st => (r, st).

Notation "x <- c ;; k" := (bind c (fun x => k))
  (at level 61, c at next level, right associativity).

(* ===================================================================== *)
(** ** genai_1_24.py *)
(* ===================================================================== *)

Module genai_1_24.

(** One turn of a conversation: the dict [{'role': ..., 'content': ...}]. *)
Record Message : Type := mkMessage { role : str; content : str }.

Definition Conversation : Type := list Message.

(** One element of a pipeline reply: the dict [{'generated_text': [...]}]. *)
Record Generated : Type := mkGenerated { generated_text : list Message }.

(** What the pipeline returns for one conversation. *)
Definition Reply : Type := list Generated.

(** The two ways [inference] calls the pipeline:
    [pipe(message, max_new_tokens=token_limit)] and
    [pipe(message, batch_size=16, max_new_tokens=token_limit)]. *)
Inductive PipeCall : Type :=
| CallSingle (message : Conversation) (max_new_tokens : PyVal)
| CallBatch (message : list Conversation) (batch_size : Z)
            (max_new_tokens : PyVal).

(** The pipeline object is external: its behaviour is a pair of functions
    over its own state [S], each returning a reply or raising. *)
Record Engine (S : Type) : Type := mkEngine {
  run_single : S -> Conversation -> PyVal -> (Exception + Reply) * S;
  run_batch : S -> list Conversation -> Z -> PyVal
              -> (Exception + list Reply) * S
}.

(** The store of a run: the engine's state and the calls made so far. *)
Definition Store (S : Type) : Type := (S * list PipeCall)%type.

Definition engine_state {S} (st : Store S) : S := fst st.
Definition calls {S} (st : Store S) : list PipeCall := snd st.

Definition pipe_single {S} (E : Engine S) (message : Conversation)
    (max_new_tokens : PyVal) : M (Store S) Reply :=
  fun st =>
    let (r, s') := run_single E (fst st) message max_new_tokens in
    (r, (s', snd st ++ [CallSingle message max_new_tokens])).

Definition pipe_batch {S} (E : Engine S) (message : list Conversation)
    (batch_size : Z) (max_new_tokens : PyVal) : M (Store S) (list Reply) :=
  fun st =>
    let (r, s') := run_batch E (fst st) message batch_size max_new_tokens in
    (r, (s', snd st ++ [CallBatch message batch_size max_new_tokens])).

(** The messages of the exceptions [inference] raises. *)
Definition style_type_error : Exception :=
  mkExc TypeError (lit "Аргумент style должен иметь тип str.").

Definition pipe_type_error : Exception :=
  mkExc TypeError
    (lit "Аргумент pipe должен иметь тип TextGenerationPipeline.").

Definition input_type_error : Exception :=
  mkExc TypeError
    (lit "Аргумент input должен принимать строку или список строк.").

(** The specification's [EmptyInputError]. *)
Definition EmptyInputError : Exception :=
  mkExc ValueError
    (lit "Входная строка не должна быть пустой или состоять только из пробелов.").

(** The specification's [LengthExceededError], single-string case. *)
Definition LengthExceededError : Exception :=
  mkExc ValueError
    (lit "Длина входной строки превышает максимально допустимый размер.").

(** The specification's [LengthExceededError], batch case. *)
Definition BatchLengthExceededError : Exception :=
  mkExc ValueError
    (lit "Длина одной из входных строк превышает максимально допустимый размер.").

(** The specification's [EmptyBatchError]. *)
Definition EmptyBatchError : Exception :=
  mkExc ValueError (lit "Список запросов не должен быть пустым.").

Definition index_error : Exception :=
  mkExc IndexError (lit "list index out of range").

(** The system turn's fixed instruction. *)
Definition system_content : str :=
  lit "Твоя задача — перефразировать в указанном стиле текст, который присылает пользователь. Не добавляй ничего от себя, даже кавычки.".

(** [len_limit is not None and len(s) > len_limit] *)
Definition over_limit (len_limit : option Z) (s : str) : bool :=
  match len_limit with
  | None => false
  | Some n => (len s >? n)%Z
  end.

(** [a[0]['generated_text'][-1]['content']] *)
Definition extract (a : Reply) : Exception + str :=
  match a with
  | [] => inl index_error
  | g :: _ =>
      match rev (generated_text g) with
      | [] => inl index_error
      | m :: _ => inr (content m)
      end
  end.

(** [[ a[0]['generated_text'][-1]['content'] for a in answer ]] *)
Fixpoint extract_all (answer : list Reply) : Exception + list str :=
  match answer with
  | [] => inr []
  | a :: rest =>
      match extract a with
      | inl e => inl e
      | inr x =>
          match extract_all rest with
          | inl e => inl e
          | inr xs => inr (x :: xs)
          end
      end
  end.

(** The [for ln in input] loop of the list branch; [message] is the list
    built so far. *)
Fixpoint collect (style : str) (len_limit : option Z) (input : list PyVal)
    (message : list Conversation) : Exception + list Conversation :=
  match input with
  | [] => inr message
  | VStr ln :: rest =>
      let ln := strip ln in
      if is_empty ln then collect style len_limit rest message
      else if over_limit len_limit ln then inl BatchLengthExceededError
      else
        collect style len_limit rest
          (message ++
           [[ mkMessage (lit "system") system_content;
              mkMessage (lit "user")
                (lit "Текст: " ++ [QUOTE] ++ ln ++ [QUOTE; LF]
                 ++ lit "Стиль: " ++ style) ]])
  | _ :: rest => collect style len_limit rest message
  end.

Definition inference {S} (E : Engine S) (style input pipe token_limit : PyVal)
    (len_limit : option Z) : M (Store S) PyVal :=
  match style with
  | VStr style =>
      if negb (isinstance_TextGenerationPipeline pipe)
      then raise pipe_type_error
      else
        match input with
        | VStr input =>
            let input := strip input in
            if is_empty input then raise EmptyInputError
            else if over_limit len_limit input then raise LengthExceededError
            else
              let message :=
                [ mkMessage (lit "system") system_content;
                  mkMessage (lit "user")
                    (lit "Текст: " ++ [QUOTE] ++ input ++ [QUOTE; LF]
                     ++ lit "Стиль: " ++ style) ] in
              reply <- pipe_single E message token_limit ;;
              answer <- lift (extract reply) ;;
              ret (VStr answer)
        | VList input =>
            message <- lift (collect style len_limit input []) ;;
            if is_empty_list message then raise EmptyBatchError
            else
              answer <- pipe_batch E message 16 token_limit ;;
              answer <- lift (extract_all answer) ;;
              ret (VList (map VStr answer))
        | _ => raise input_type_error
        end
  | _ => raise style_type_error
  end.

(** *** The command-line program of [genai_1_24.py] *)

Definition MODEL_NAME : str := lit "Qwen/Qwen3-4B-Instruct-2507".
Definition DEFAULT_STYLE : str := lit "Официальный".
Definition MAX_OUTPUT_TOKENS : Z := 50.
Definition MAX_INPUT_LENGTH : Z := 200.

(** The parsed command line. *)
Record Args : Type := mkArgs {
  input_file : str;
  output : str;
  realtime : bool;
  style : str;
  tokens : Z
}.

(** What the program does to the outside: text printed, the prompt of
    [input], a file written. *)
Inductive Event : Type :=
| Print (text : str)
| Prompt (text : str)
| WriteFile (path content : str).

(** How the program ends: it returns, it leaves through [exit], or an
    exception escapes. *)
Inductive Termination : Type :=
| Returned
| Exited (code : Z)
| Uncaught (e : Exception).

(** The outside of the program: whether [text_pipeline_init] raises, what
    reading a file gives, whether writing a file raises, and the lines
    [input] will return. *)
Record World : Type := mkWorld {
  init_failure : option Exception;
  read_file : str -> Exception + str;
  write_file : str -> str -> option Exception;
  stdin : list str
}.

Definition EOFError : Exception :=
  mkExc (OtherError "EOFError") (lit "EOF when reading a line").

(** [isinstance(e, FileNotFoundError)] *)
Definition is_FileNotFoundError (e : Exception) : bool :=
  match exc_class e with
  | OtherError name => String.eqb name "FileNotFoundError"
  | _ => false
  end.

(** The texts the program prints. *)
Definition init_ok_text : str := lit "Модель успешно инициализирована.".

Definition init_error_text (e : Exception) : str :=
  [ESC] ++ lit "[31mПроизошла ошибка при инициализации модели:" ++ [LF]
  ++ exc_msg e ++ [ESC] ++ lit "[0m".

Definition quit_hint_text : str :=
  lit "Для выхода из программы введите " ++ [ESC] ++ lit "[34m:q" ++ [ESC]
  ++ lit "[0m.".

Definition prompt_text : str := lit "Введите фразу: ".

Definition blank_line_text : str := lit "Введена пустая строка.".

Definition text_error_text (e : Exception) : str :=
  lit "Ошибка обработки текста:" ++ [LF] ++ exc_msg e.

Definition open_error_text (e : Exception) : str :=
  [ESC] ++ lit "[31mОшибка открытия файла:" ++ [LF] ++ exc_msg e
  ++ [ESC] ++ lit "[0m".

Definition file_error_text (e : Exception) : str :=
  [ESC] ++ lit "[31mОшибка обработки файла:" ++ [LF] ++ exc_msg e
  ++ [ESC] ++ lit "[0m".

(** The [TypeError] of [answer + "\n"] and of ["\n".join(answer)] on an
    answer of the wrong type; the text of its message is not modelled. *)
Definition operand_type_error : Exception :=
  mkExc TypeError (lit "unsupported operand").

(** [answer + "\n"] *)
Definition add_newline (answer : PyVal) : Exception + str :=
  match answer with
  | VStr a => inr (a ++ [LF])
  | _ => inl operand_type_error
  end.

(** The items of a list of strings. *)
Fixpoint str_items (l : list PyVal) : Exception + list str :=
  match l with
  | [] => inr []
  | VStr x :: rest =>
      match str_items rest with
      | inr xs => inr (x :: xs)
      | inl e => inl e
      end
  | _ :: _ => inl operand_type_error
  end.

(** ["\n".join(answer)] *)
Definition join_lines (answer : PyVal) : Exception + str :=
  match answer with
  | VList l =>
      match str_items l with
      | inr xs => inr (join [LF] xs)
      | inl e => inl e
      end
  | VStr a => inr (join [LF] (map (fun c => [c]) a))
  | _ => inl operand_type_error
  end.

(** The loop [while True] of the interactive mode, over the lines [input]
    still has to return. *)
Fixpoint realtime_loop {S} (E : Engine S) (args : Args) (pipe_instance : PyVal)
    (lines : list str) (st : Store S)
    : (list Event * Termination) * Store S :=
  match lines with
  | [] => (([Prompt prompt_text], Uncaught EOFError), st)
  | text :: rest =>
      if eqb text (lit ":q") then (([Prompt prompt_text], Returned), st)
      else if is_empty (strip text) then
        let '((events, how), st') :=
          realtime_loop E args pipe_instance rest st in
        ((Prompt prompt_text :: Print blank_line_text :: events, how), st')
      else
        let '(r, st1) :=
          inference E (VStr (style args)) (VStr text) pipe_instance
            (VInt (tokens args)) (Some MAX_INPUT_LENGTH) st in
        let printed :=
          match r with
          | inr answer =>
              match add_newline answer with
              | inr line => Print line
              | inl e => Print (text_error_text e)
              end
          | inl e => Print (text_error_text e)
          end in
        let '((events, how), st') :=
          realtime_loop E args pipe_instance rest st1 in
        ((Prompt prompt_text :: printed :: events, how), st')
  end.

(** The file mode: read, split into lines, rephrase, write; every exception
    of the block is caught and reported. *)
Definition file_mode {S} (E : Engine S) (W : World) (args : Args)
    (pipe_instance : PyVal) (st : Store S)
    : (list Event * Termination) * Store S :=
  let report e :=
    if is_FileNotFoundError e then Print (open_error_text e)
    else Print (file_error_text e) in
  match read_file W (input_file args) with
  | inl e => (([report e], Returned), st)
  | inr content =>
      let lines := splitlines content in
      match inference E (VStr (style args)) (VList (map VStr lines))
              pipe_instance (VInt (tokens args)) (Some MAX_INPUT_LENGTH) st with
      | (inl e, st') => (([report e], Returned), st')
      | (inr answer, st') =>
          match join_lines answer with
          | inl e => (([report e], Returned), st')
          | inr text =>
              match write_file W (output args) text with
              | Some e => (([report e], Returned), st')
              | None => (([WriteFile (output args) text], Returned), st')
              end
          end
      end
  end.

(** [main]; it is named [main_cli] here because [main] is the name of the
    other module. *)
Definition main_cli {S} (E : Engine S) (W : World) (args : Args)
    (st : Store S) : (list Event * Termination) * Store S :=
  match init_failure W with
  | Some e => (([Print (init_error_text e)], Exited 1), st)
  | None =>
      let pipe_instance := VPipeline in
      let '((events, how), st') :=
        if realtime args then
          let '((events, how), st') :=
            realtime_loop E args pipe_instance (stdin W) st in
          ((Print quit_hint_text :: events, how), st')
        else file_mode E W args pipe_instance st in
      ((Print init_ok_text :: events, how), st')
  end.

End genai_1_24.

(* ===================================================================== *)
(** ** main.py *)
(* ===================================================================== *)

Module main.

Definition MIN_WORDS : Z := 100.
Definition MAX_WORDS : Z := 150.

(** The character class [[A-Za-zА-Яа-яЁё0-9']]: the ranges are ranges of
    code points, А-Я is U+0410..U+042F, а-я is U+0430..U+044F, Ё is U+0401
    and ё is U+0451. *)
Definition word_char (c : codepoint) : bool :=
  ((65 <=? c) && (c <=? 90) || (97 <=? c) && (c <=? 122)
   || (1040 <=? c) && (c <=? 1071) || (1072 <=? c) && (c <=? 1103)
   || (c =? 1025) || (c =? 1105)
   || (48 <=? c) && (c <=? 57) || (c =? 39))%N.

(** [re.findall(r"[...]+", text)]: the scan goes left to right; where the
    class matches, the greedy [+] takes every following character of the
    class, the match is emitted and the scan resumes after it. [cur] is the
    match being read, in reverse. *)
Definition emit (cur : str) : list str :=
  match cur with
  | [] => []
  | _ :: _ => [rev cur]
  end.

Fixpoint findall_from (cur : str) (text : str) : list str :=
  match text with
  | [] => emit cur
  | c :: text' =>
      if word_char c then findall_from (c :: cur) text'
      else emit cur ++ findall_from [] text'
  end.

Definition findall (text : str) : list str := findall_from [] text.

Definition count_words (text : str) : Z := Z.of_nat (length (findall text)).

(** [signature.replace("\n", " ").strip()] and the two templates. *)
Definition format_final_letter (topic body signature language : str) : str :=
  let signature := strip (replace_char LF SPACE signature) in
  if list_eq_dec N.eq_dec language (lit "en")
  then lit "Subject: " ++ topic ++ [LF; LF] ++ body ++ [LF; LF]
       ++ signature ++ [LF]
  else lit "Тема: " ++ topic ++ [LF; LF] ++ body ++ [LF; LF]
       ++ signature ++ [LF].

(** The instructions appended to a body that is too short or too long. *)
Definition expand_suffix : str :=
  [LF; LF] ++ lit "Сделай письмо чуть подробнее.".

Definition shorten_suffix : str :=
  [LF; LF] ++ lit "Сократи письмо до 100–150 слов.".

(** [MIN_WORDS <= w <= MAX_WORDS] *)
Definition in_bounds (w : Z) : bool :=
  ((MIN_WORDS <=? w) && (w <=? MAX_WORDS))%Z.

(** [genai_1_24.run_style_transfer(pipe, text, style=...)] is not part of
    the sources at hand: it is taken as a parameter, a function over the
    engine's state [S] that returns the rewritten body or raises. *)
Definition StyleTransfer (S : Type) : Type :=
  S -> str -> str -> (Exception + str) * S.

(** One recorded call: the text and style submitted and the outcome. *)
Record TransferCall : Type := mkCall {
  call_text : str;
  call_style : str;
  call_result : Exception + str
}.

Definition TransferStore (S : Type) : Type := (S * list TransferCall)%type.

Definition run_style_transfer {S} (tg : StyleTransfer S) (text style : str)
    : M (TransferStore S) str :=
  fun st =>
    let (r, s') := tg (fst st) text style in
    (r, (s', snd st ++ [mkCall text style r])).

(** The loop [for _ in range(tries)] of [main], started with [body]. *)
Fixpoint refine {S} (tg : StyleTransfer S) (style_for_tg : str) (tries : nat)
    (body : str) : M (TransferStore S) str :=
  match tries with
  | O => ret body
  | Datatypes.S tries' =>
      let w := count_words body in
      if in_bounds w then ret body
      else if (w <? MIN_WORDS)%Z then
        body <- run_style_transfer tg (body ++ expand_suffix) style_for_tg ;;
        refine tg style_for_tg tries' body
      else
        body <- run_style_transfer tg (body ++ shorten_suffix) style_for_tg ;;
        refine tg style_for_tg tries' body
  end.

(** [main] from the first style transfer of the draft to the final text:
    [letter_type], [topic], [sign] and [lang] come from the command line and
    [draft] from [generate_draft]. *)
Definition style_for_tg (letter_type : str) : str :=
  if list_eq_dec N.eq_dec letter_type (lit "официальное")
  then lit "official" else lit "friendly".

Definition main_from_draft {S} (tg : StyleTransfer S)
    (letter_type topic sign lang draft : str) : M (TransferStore S) str :=
  let style_for_tg := style_for_tg letter_type in
  body <- run_style_transfer tg draft style_for_tg ;;
  let tries := 6%nat in
  body <- refine tg style_for_tg tries body ;;
  let final_text := format_final_letter topic body sign lang in
  ret final_text.

(** [detect_letter_type]; [lower] stands for [str.lower], whose Unicode
    case mapping is not modelled. *)
Definition detect_letter_type (lower : str -> str)
    (letter_type_arg : option str) : str :=
  match letter_type_arg with
  | None => lit "официальное"
  | Some arg =>
      if is_empty arg then lit "официальное"
      else
        let s := lower (strip arg) in
        if existsb (eqb s)
             [lit "оф"; lit "официальное"; lit "formal"; lit "official"]
        then lit "официальное"
        else if existsb (eqb s)
                  [lit "др"; lit "дружеское"; lit "friendly"; lit "informal"]
        then lit "дружеское"
        else lit "официальное"
  end.

Definition build_draft_prompt (letter_type topic language : str) : str :=
  if eqb language (lit "en") then
    let base := lit "Write an email draft." in
    let style :=
      if eqb letter_type (lit "официальное")
      then lit "formal business email" else lit "friendly informal email" in
    base ++ lit " Topic: " ++ topic ++ lit ". Style: " ++ style
    ++ lit ". 110-130 words."
  else
    let style :=
      if eqb letter_type (lit "официальное")
      then lit "официально-деловой" else lit "дружеский" in
    lit "Напиши черновик письма на тему: " ++ topic ++ lit ". Стиль: "
    ++ style ++ lit ". Объём 110–130 слов.".

(** The system turn of a draft request. *)
Definition draft_system_content : str :=
  lit "Ты пишешь короткие письма. Соблюдай ограничения по объёму и теме.".

Definition generate_draft {S} (E : genai_1_24.Engine S) (prompt : str)
    (max_new_tokens : Z) : M (genai_1_24.Store S) str :=
  let messages :=
    [ genai_1_24.mkMessage (lit "system") draft_system_content;
      genai_1_24.mkMessage (lit "user") prompt ] in
  reply <- genai_1_24.pipe_single E messages (VInt max_new_tokens) ;;
  out <- lift (genai_1_24.extract reply) ;;
  ret (strip out).

End main.

(* ===================================================================== *)
(** ** The vocabulary of the specification *)
(* ===================================================================== *)

Module Spec.
Import genai_1_24 main.

(** *** Input validator *)

(** A raw line the batch validator drops: not text-typed, or empty after
    trimming. *)
Definition skipped (ln : PyVal) : bool :=
  match ln with
  | VStr s => is_empty (strip s)
  | _ => true
  end.

(** A text-typed line whose trimmed length exceeds the limit [n]. *)
Definition exceeds (n : Z) (ln : PyVal) : bool :=
  match ln with
  | VStr s => (len (strip s) >? n)%Z
  | _ => false
  end.

(** A text-typed line that is not empty after trimming and whose trimmed
    form is over the configured limit. *)
Definition oversized (len_limit : option Z) (ln : PyVal) : bool :=
  match ln with
  | VStr s => negb (is_empty (strip s)) && over_limit len_limit (strip s)
  | _ => false
  end.

(** A valid line: text-typed, not empty after trimming, within the limit. *)
Definition valid (len_limit : option Z) (ln : PyVal) : bool :=
  match ln with
  | VStr s => negb (is_empty (strip s)) && negb (over_limit len_limit (strip s))
  | _ => false
  end.

(** The trimmed text of a line. *)
Definition trimmed (ln : PyVal) : str :=
  match ln with
  | VStr s => strip s
  | _ => []
  end.

(** The trimmed texts of the valid lines, in their original order. *)
Definition surviving (len_limit : option Z) (input : list PyVal) : list str :=
  map trimmed (filter (valid len_limit) input).

(** *** Prompt builder *)

(** [buildConversation(style, text)]: one system turn with the fixed
    instruction, then one user turn with the text between quotes, a newline
    and the style label. *)
Definition buildConversation (style text : str) : Conversation :=
  [ {| role := lit "system"; content := system_content |};
    {| role := lit "user";
       content := lit "Текст: " ++ [QUOTE] ++ text ++ [QUOTE; LF]
                  ++ lit "Стиль: " ++ style |} ].

(** *** Generation engine *)

(** An engine that returns exactly one structured reply per submitted
    conversation: a batch call does not raise, answers with as many replies
    as conversations, and every reply has a final turn to extract. *)
Definition one_reply_per_conversation {S} (E : Engine S) : Prop :=
  forall s message batch_size max_new_tokens,
    exists replies s',
      run_batch E s message batch_size max_new_tokens = (inr replies, s')
      /\ length replies = length message
      /\ Forall (fun a => exists x, extract a = inr x) replies.

(** [inference] on a list, once the type checks have passed. *)
Definition batch_outcome {S} (E : Engine S) (style : str) (token_limit : PyVal)
    (len_limit : option Z) (input : list PyVal) (st : Store S)
    : (Exception + PyVal) * Store S :=
  if existsb (oversized len_limit) input
  then (inl BatchLengthExceededError, st)
  else
    let message := map (buildConversation style) (surviving len_limit input) in
    if is_empty_list message then (inl EmptyBatchError, st)
    else
      let (r, s') := run_batch E (fst st) message 16 token_limit in
      let st' := (s', snd st ++ [CallBatch message 16 token_limit]) in
      match r with
      | inl e => (inl e, st')
      | inr answer =>
          match extract_all answer with
          | inl e => (inl e, st')
          | inr xs => (inr (VList (map VStr xs)), st')
          end
      end.

(** A mock engine without state: the reply to a conversation is the
    conversation followed by an assistant turn that repeats the content of
    its last turn. *)
Definition echo_reply (c : Conversation) : Reply :=
  [ {| generated_text :=
         c ++ [ {| role := lit "assistant";
                   content := match rev c with
                              | m :: _ => content m
                              | [] => []
                              end |} ] |} ].

Definition echo_engine : Engine unit :=
  {| run_single := fun s c _ => (inr (echo_reply c), s);
     run_batch := fun s cs _ _ => (inr (map echo_reply cs), s) |}.

(** *** Word counting *)

(** [maximal_runs text ws]: [ws] are the maximal runs of word characters of
    [text], from left to right. The text is a stretch without word
    characters, then a non-empty run of word characters that is not followed
    by a word character, then the rest with its own runs. *)
Inductive maximal_runs : str -> list str -> Prop :=
| runs_none : forall sep,
    existsb word_char sep = false ->
    maximal_runs sep []
| runs_next : forall sep w rest ws,
    existsb word_char sep = false ->
    w <> [] ->
    forallb word_char w = true ->
    (forall c, hd_error rest = Some c -> word_char c = false) ->
    maximal_runs rest ws ->
    maximal_runs (sep ++ w ++ rest) (w :: ws).

(** *** Refinement loop *)

(** The text a correction call submits for a rejected [body]. *)
Definition correction_text (body : str) : str :=
  if (count_words body <? MIN_WORDS)%Z
  then body ++ expand_suffix
  else body ++ shorten_suffix.

(** [corrections style body log body']: [log] is a sequence of correction
    calls that leads from [body] to [body']: each call is made for a body
    that fails the acceptance predicate, submits that body with the
    matching instruction, and its reply is the next body. *)
Inductive corrections (style : str)
  : str -> list TransferCall -> str -> Prop :=
| corrections_nil : forall body, corrections style body [] body
| corrections_cons : forall body reply log body',
    in_bounds (count_words body) = false ->
    corrections style reply log body' ->
    corrections style body
      (mkCall (correction_text body) style (inr reply) :: log) body'.

(** A style-transfer engine that answers every call with the same body. *)
Definition constant_transfer (reply : str) : StyleTransfer unit :=
  fun s _ _ => (inr reply, s).

(** *** Vocabulary of the further properties *)

(** A text that does not start with white space. *)
Definition no_leading_space (t : str) : bool :=
  match t with
  | [] => true
  | c :: _ => negb (isspace c)
  end.

(** A text without white space at either end. *)
Definition is_trimmed (t : str) : bool :=
  no_leading_space t && no_leading_space (rev t).

(** A text the validator lets through under [len_limit]: not empty, without
    white space at either end, within the limit. *)
Definition dispatchable (len_limit : option Z) (t : str) : bool :=
  negb (is_empty t) && is_trimmed t && negb (over_limit len_limit t).

(** A call [inference] may make: one conversation built from a
    dispatchable text, or a non-empty batch of such conversations with a
    batch size of 16, both with the caller's token limit. *)
Definition well_formed_call (style : str) (token_limit : PyVal)
    (len_limit : option Z) (c : PipeCall) : Prop :=
  match c with
  | CallSingle message max_new_tokens =>
      max_new_tokens = token_limit
      /\ exists t,
           dispatchable len_limit t = true
           /\ message = buildConversation style t
  | CallBatch message batch_size max_new_tokens =>
      max_new_tokens = token_limit
      /\ batch_size = 16%Z
      /\ message <> []
      /\ exists ts,
           forallb (dispatchable len_limit) ts = true
           /\ message = map (buildConversation style) ts
  end.

(** The lines of the interactive mode that reach [inference]: those before
    the first [:q] that are not blank. *)
Fixpoint submitted_lines (lines : list str) : list str :=
  match lines with
  | [] => []
  | text :: rest =>
      if eqb text (lit ":q") then []
      else if is_empty (strip text) then submitted_lines rest
      else text :: submitted_lines rest
  end.

(** A style-transfer engine that returns the text it is given. *)
Definition echo_transfer : StyleTransfer unit :=
  fun s text _ => (inr text, s).

(** A world for runs on concrete inputs: one input file, writing always
    succeeds. *)
Definition one_file_world (path content : str) (lines : list str) : World :=
  {| init_failure := None;
     read_file := fun p =>
       if eqb p path then inr content
       else inl (mkExc (OtherError "FileNotFoundError") p);
     write_file := fun _ _ => None;
     stdin := lines |}.

(** [inference] on a string, once the type checks have passed. *)
Definition single_outcome {S} (E : Engine S) (style : str)
    (token_limit : PyVal) (len_limit : option Z) (input : str) (st : Store S)
    : (Exception + PyVal) * Store S :=
  let text := strip input in
  if is_empty text then (inl EmptyInputError, st)
  else if over_limit len_limit text then (inl LengthExceededError, st)
  else
    let message := buildConversation style text in
    let (r, s') := run_single E (fst st) message token_limit in
    let st' := (s', snd st ++ [CallSingle message token_limit]) in
    match r with
    | inl e => (inl e, st')
    | inr reply =>
        match extract reply with
        | inl e => (inl e, st')
        | inr answer => (inr (VStr answer), st')
        end
    end.

(** A mock engine without state that gives the same outcome to every
    call. *)
Definition fixed_engine (single : Exception + Reply)
    (batch : Exception + list Reply) : Engine unit :=
  {| run_single := fun s _ _ => (single, s);
     run_batch := fun s _ _ _ => (batch, s) |}.

End Spec.
Import genai_1_24 main Spec.

(* ===================================================================== *)
(** ** Word counting *)
(* ===================================================================== *)

Section WordCount.

Example lit_decodes_cyrillic :
  lit "Привет мир" =
  [1055; 1088; 1080; 1074; 1077; 1090; 32; 1084; 1080; 1088]%N.
Proof. reflexivity. Qed.

Lemma forallb_rev_true {A} (f : A -> bool) (l : list A) :
  forallb f l = true -> forallb f (rev l) = true.
Proof.
  rewrite !forallb_forall. intros H x Hx. apply H. now apply in_rev.
Qed.

Lemma rev_nonempty {A} (l : list A) : l <> [] -> rev l <> [].
Proof.
  intros H E. apply H. apply (f_equal (@rev A)) in E.
  now rewrite rev_involutive in E.
Qed.

Lemma emit_nonempty (cur : str) : cur <> [] -> emit cur = [rev cur].
Proof. destruct cur; [congruence | reflexivity]. Qed.

(** Characters outside the class are passed over. *)
Lemma findall_from_sep (sep text : str) :
  existsb word_char sep = false ->
  findall_from [] (sep ++ text) = findall_from [] text.
Proof.
  induction sep as [|c sep IH]; simpl; intros H; [reflexivity|].
  apply orb_false_iff in H as [Hc Hsep].
  rewrite Hc. simpl. auto.
Qed.

(** Characters of the class extend the match being read. *)
Lemma findall_from_word (w cur text : str) :
  forallb word_char w = true ->
  findall_from cur (w ++ text) = findall_from (rev w ++ cur) text.
Proof.
  revert cur. induction w as [|c w IH]; simpl; intros cur H; [reflexivity|].
  apply andb_true_iff in H as [Hc Hw].
  rewrite Hc, IH by assumption.
  now rewrite <- app_assoc.
Qed.

(** The match ends where the class no longer matches. *)
Lemma findall_from_stop (cur rest : str) :
  (forall c, hd_error rest = Some c -> word_char c = false) ->
  findall_from cur rest = emit cur ++ findall_from [] rest.
Proof.
  destruct rest as [|c rest]; simpl; intros H.
  - now rewrite app_nil_r.
  - now rewrite (H c eq_refl).
Qed.

Lemma maximal_runs_skip (c : codepoint) (text : str) (ws : list str) :
  word_char c = false -> maximal_runs text ws -> maximal_runs (c :: text) ws.
Proof.
  intros Hc H. destruct H as [sep Hsep | sep w rest ws Hsep Hw Hall Hnext Hrest].
  - apply runs_none. simpl. now rewrite Hc.
  - change (maximal_runs ((c :: sep) ++ w ++ rest) (w :: ws)).
    apply runs_next; auto. simpl. now rewrite Hc.
Qed.

Lemma findall_from_runs (text cur : str) :
  forallb word_char cur = true ->
  maximal_runs (rev cur ++ text) (findall_from cur text).
Proof.
  revert cur. induction text as [|c text IH]; intros cur Hcur.
  - simpl. rewrite app_nil_r. destruct cur as [|d cur].
    + apply runs_none. reflexivity.
    + rewrite <- (app_nil_r (rev (d :: cur))).
      change (maximal_runs ([] ++ rev (d :: cur) ++ []) [rev (d :: cur)]).
      apply runs_next.
      * reflexivity.
      * apply rev_nonempty. discriminate.
      * now apply forallb_rev_true.
      * discriminate.
      * apply runs_none. reflexivity.
  - simpl. destruct (word_char c) eqn:Hc.
    + specialize (IH (c :: cur)). simpl in IH.
      rewrite <- app_assoc in IH. apply IH. now rewrite Hc, Hcur.
    + pose proof (@maximal_runs_skip c _ _ Hc (IH [] eq_refl)) as Hrest.
      simpl in Hrest. destruct cur as [|d cur]; [exact Hrest|].
      change (maximal_runs ([] ++ rev (d :: cur) ++ c :: text)
                (rev (d :: cur) :: findall_from [] text)).
      apply runs_next.
      * reflexivity.
      * apply rev_nonempty. discriminate.
      * now apply forallb_rev_true.
      * intros c' Hc'. injection Hc' as <-. exact Hc.
      * exact Hrest.
Qed.

Lemma findall_maximal_runs (text : str) : maximal_runs text (findall text).
Proof. exact (findall_from_runs text [] eq_refl). Qed.

Lemma maximal_runs_findall (text : str) (ws : list str) :
  maximal_runs text ws -> findall text = ws.
Proof.
  unfold findall. induction 1 as [sep Hsep | sep w rest ws Hsep Hw Hall Hnext _ IH].
  - rewrite <- (app_nil_r sep). now rewrite findall_from_sep.
  - rewrite findall_from_sep, findall_from_word by assumption.
    rewrite app_nil_r, findall_from_stop by assumption.
    rewrite emit_nonempty.
    + rewrite rev_involutive, IH. reflexivity.
    + now apply rev_nonempty.
Qed.

(** C3. [count_words] counts the maximal runs of characters of the class
    [A-Za-zА-Яа-яЁё0-9'] (Latin letters, Cyrillic letters with ё and Ё,
    digits, the apostrophe), each run being one word: the matches of
    [findall] are the maximal runs of the text, whatever list of maximal runs
    one takes has [count_words text] elements, and the three sample texts
    have 4, 0 and 2 words. *)
Theorem count_words_counts_maximal_runs :
  (forall text, maximal_runs text (findall text))
  /\ (forall text ws,
        maximal_runs text ws -> count_words text = Z.of_nat (length ws))
  /\ findall (lit "Hello, world! 123 don't")
     = [lit "Hello"; lit "world"; lit "123"; lit "don't"]
  /\ count_words (lit "Hello, world! 123 don't") = 4%Z
  /\ count_words (lit "") = 0%Z
  /\ count_words (lit "Привет мир") = 2%Z.
Proof.
  split; [exact findall_maximal_runs|].
  split.
  - intros text ws H. unfold count_words.
    now rewrite (@maximal_runs_findall text ws H).
  - repeat split; reflexivity.
Qed.

End WordCount.

(* ===================================================================== *)
(** ** Input validation, prompt construction and dispatch *)
(* ===================================================================== *)

Section Inference.

Variable S : Type.
Variable E : Engine S.

Lemma app_one_neq {A} (l : list A) (x : A) : l ++ [x] <> l.
Proof.
  intros H. apply (f_equal (@length A)) in H.
  rewrite length_app in H. simpl in H. lia.
Qed.

(** The loop over the lines: it aborts if some line is oversized, and
    otherwise appends one conversation per valid line. *)
Lemma collect_spec (style : str) (len_limit : option Z) (input : list PyVal) :
  forall message,
    collect style len_limit input message =
    if existsb (oversized len_limit) input
    then inl BatchLengthExceededError
    else inr (message
              ++ map (buildConversation style) (surviving len_limit input)).
Proof.
  unfold surviving.
  induction input as [|ln rest IH]; intros message; simpl.
  - now rewrite app_nil_r.
  - destruct ln as [| b | z | s | l | | c k]; simpl; try apply IH.
    destruct (is_empty (strip s)); simpl; [apply IH|].
    destruct (over_limit len_limit (strip s)); simpl; [reflexivity|].
    rewrite IH. destruct (existsb (oversized len_limit) rest); [reflexivity|].
    now rewrite <- app_assoc.
Qed.

(** A dropped line leaves no trace in the loop. *)
Lemma collect_skip (style : str) (len_limit : option Z)
    (before : list PyVal) (ln : PyVal) (after : list PyVal) :
  skipped ln = true ->
  forall message,
    collect style len_limit (before ++ ln :: after) message =
    collect style len_limit (before ++ after) message.
Proof.
  intros Hskip. induction before as [|x before IH]; intros message; simpl.
  - destruct ln as [| b | z | s | l | | c k]; try reflexivity.
    simpl in Hskip. now rewrite Hskip.
  - destruct x as [| b | z | s | l | | c k]; try apply IH.
    destruct (is_empty (strip s)); [apply IH|].
    destruct (over_limit len_limit (strip s)); [reflexivity | apply IH].
Qed.

Lemma inference_batch (style : str) (token_limit : PyVal)
    (len_limit : option Z) (input : list PyVal) (st : Store S) :
  inference E (VStr style) (VList input) VPipeline token_limit len_limit st
  = batch_outcome E style token_limit len_limit input st.
Proof.
  unfold inference, batch_outcome; simpl.
  unfold bind at 1. unfold lift at 1. rewrite collect_spec. simpl.
  destruct (existsb (oversized len_limit) input); [reflexivity|].
  destruct (map (buildConversation style) (surviving len_limit input))
    as [|c cs] eqn:Hm; [reflexivity|].
  simpl. unfold bind, pipe_batch, lift, ret.
  destruct (run_batch E (fst st) (c :: cs) 16 token_limit) as [[e | answer] s'];
    [reflexivity|].
  destruct (extract_all answer); reflexivity.
Qed.

Lemma inference_batch_skip (style : str) (token_limit : PyVal)
    (len_limit : option Z) (before : list PyVal) (ln : PyVal)
    (after : list PyVal) (st : Store S) :
  skipped ln = true ->
  inference E (VStr style) (VList (before ++ ln :: after)) VPipeline
    token_limit len_limit st
  = inference E (VStr style) (VList (before ++ after)) VPipeline
      token_limit len_limit st.
Proof.
  intros Hskip. unfold inference; simpl.
  unfold bind at 1 3. unfold lift at 1 3.
  now rewrite (@collect_skip style len_limit before ln after Hskip).
Qed.

Lemma exceeds_oversized (limit : Z) (ln : PyVal) :
  (0 <= limit)%Z -> exceeds limit ln = true -> oversized (Some limit) ln = true.
Proof.
  intros Hlimit. destruct ln as [| b | z | s | l | | c k]; simpl; try congruence.
  intros H. rewrite H, andb_true_r.
  destruct (strip s); simpl; [|reflexivity].
  unfold len in H. simpl in H. lia.
Qed.

Lemma existsb_impl {A} (f g : A -> bool) (l : list A) :
  (forall x, f x = true -> g x = true) ->
  existsb f l = true -> existsb g l = true.
Proof.
  intros Hfg. rewrite !existsb_exists. intros [x [Hin Hx]]. eauto.
Qed.

Lemma batch_abort_iff (style : str) (token_limit : PyVal)
    (len_limit : option Z) (input : list PyVal) (st : Store S) :
  inference E (VStr style) (VList input) VPipeline token_limit len_limit st
  = (inl BatchLengthExceededError, st)
  <-> existsb (oversized len_limit) input = true.
Proof.
  rewrite inference_batch. unfold batch_outcome.
  destruct (existsb (oversized len_limit) input); [tauto|].
  split; [|discriminate]. intros H. exfalso.
  destruct (is_empty_list _); [discriminate|].
  destruct (run_batch E (fst st) _ 16 token_limit) as [[e | answer] s'].
  - injection H as _ Hst. apply (f_equal snd) in Hst. simpl in Hst.
    now apply app_one_neq in Hst.
  - destruct (extract_all answer); injection H as _ Hst;
      apply (f_equal snd) in Hst; simpl in Hst;
      now apply app_one_neq in Hst.
Qed.

(** *** Batch mode *)

(** C1. In batch mode with a finite limit, an entry that is not a string or
    is empty after trimming is skipped with no error (the run is the run of
    the batch without it), and as soon as some string entry has a trimmed
    length over the limit the whole batch fails with the batch
    [LengthExceededError], a [ValueError], whatever else the batch holds and
    before any engine call. *)
Theorem batch_skips_invalid_and_aborts_on_oversized
    (style : str) (token_limit : PyVal) (limit : Z) (st : Store S) :
  (0 <= limit)%Z ->
  let run input :=
    inference E (VStr style) (VList input) VPipeline token_limit
      (Some limit) st in
  (forall before ln after,
      skipped ln = true -> run (before ++ ln :: after) = run (before ++ after))
  /\ (forall input,
        existsb (exceeds limit) input = true ->
        run input = (inl BatchLengthExceededError, st))
  /\ exc_class BatchLengthExceededError = ValueError.
Proof.
  intros Hlimit run. split; [|split].
  - intros before ln after Hskip. now apply inference_batch_skip.
  - intros input Hex. apply batch_abort_iff.
    revert Hex. apply existsb_impl. intros ln. now apply exceeds_oversized.
  - reflexivity.
Qed.

(** C6. In batch mode, when every entry is skipped (not a string, or empty
    after trimming) no valid entry remains and [inference] fails with
    [EmptyBatchError], a [ValueError], the store being untouched: no engine
    call is made. *)
Theorem batch_without_valid_line_fails_empty
    (style : str) (token_limit : PyVal) (len_limit : option Z)
    (input : list PyVal) (st : Store S) :
  forallb skipped input = true ->
  inference E (VStr style) (VList input) VPipeline token_limit len_limit st
  = (inl EmptyBatchError, st)
  /\ exc_class EmptyBatchError = ValueError.
Proof.
  intros Hall. split; [|reflexivity].
  rewrite inference_batch. unfold batch_outcome, surviving.
  assert (Hnone : forall ln, In ln input -> skipped ln = true)
    by now apply forallb_forall.
  assert (Hover : existsb (oversized len_limit) input = false).
  { apply not_true_is_false. rewrite existsb_exists. intros [ln [Hin Hov]].
    specialize (Hnone ln Hin).
    destruct ln as [| b | z | s | l | | c k]; simpl in *; try discriminate.
    rewrite Hnone in Hov. discriminate. }
  assert (Hvalid : filter (valid len_limit) input = []).
  { clear Hover Hall. induction input as [|ln rest IH]; [reflexivity|].
    simpl. pose proof (Hnone ln (or_introl eq_refl)) as Hln.
    destruct ln as [| b | z | s | l | | c k]; simpl in *;
      try (apply IH; intros; apply Hnone; now right).
    rewrite Hln. simpl. apply IH. intros; apply Hnone; now right. }
  now rewrite Hover, Hvalid.
Qed.

(** C10. In batch mode the length check is made on the trimmed line and
    comes after the skips. The batch aborts with the length error, before
    any engine call, exactly when some string line that is not empty after
    trimming has a trimmed length over [len_limit]; a skipped entry never
    changes the run, whatever its raw length; a line that is not empty
    after trimming and whose trimmed length is within the limit is kept,
    whatever its raw length; and without a limit the batch never aborts on
    length. *)
Theorem batch_length_check_is_on_trimmed_line_after_skip
    (style : str) (token_limit : PyVal) (st : Store S) :
  let run len_limit input :=
    inference E (VStr style) (VList input) VPipeline token_limit
      len_limit st in
  (forall len_limit input,
      run len_limit input = (inl BatchLengthExceededError, st)
      <-> existsb (oversized len_limit) input = true)
  /\ (forall len_limit before ln after,
        skipped ln = true ->
        run len_limit (before ++ ln :: after) = run len_limit (before ++ after))
  /\ (forall n s rest message,
        strip s <> [] -> (len (strip s) <= n)%Z ->
        collect style (Some n) (VStr s :: rest) message
        = collect style (Some n) rest
            (message ++ [buildConversation style (strip s)]))
  /\ (forall input, run None input <> (inl BatchLengthExceededError, st)).
Proof.
  intros run. split; [|split; [|split]].
  - intros len_limit input. apply batch_abort_iff.
  - intros len_limit before ln after Hskip. now apply inference_batch_skip.
  - intros n s rest message Hne Hle. simpl.
    destruct (strip s) as [|c t] eqn:Hs; [congruence|]. simpl.
    replace (len (c :: t) >? n)%Z with false; [reflexivity|].
    symmetry. rewrite Z.gtb_ltb. apply Z.ltb_ge. exact Hle.
  - intros input H. apply batch_abort_iff in H.
    apply existsb_exists in H as [ln [_ Hov]].
    destruct ln as [| b | z | s | l | | c k]; simpl in Hov; try discriminate.
    now rewrite andb_false_r in Hov.
Qed.

End Inference.

Section Dispatch.

Variable S : Type.
Variable E : Engine S.

Lemma extract_all_ok (replies : list Reply) :
  Forall (fun a => exists x, extract a = inr x) replies ->
  exists answers,
    extract_all replies = inr answers
    /\ Forall2 (fun a x => extract a = inr x) replies answers.
Proof.
  induction 1 as [|a rest [x Hx] _ [xs [Hxs Hall]]]; simpl.
  - exists []. split; [reflexivity | constructor].
  - rewrite Hx, Hxs. exists (x :: xs). split; [reflexivity|].
    now constructor.
Qed.

Lemma existsb_filter_nonempty {A} (f : A -> bool) (l : list A) :
  existsb f l = true -> filter f l <> [].
Proof.
  induction l as [|x l IH]; simpl; [discriminate|].
  destruct (f x); simpl; [discriminate | exact IH].
Qed.

(** C5, as the code has it. For a batch with at least one valid line and no
    oversized line, and an engine that returns one structured reply per
    submitted conversation, batch inference submits the conversations of the
    valid lines in their original order, and returns the strings extracted
    from the replies, one per valid line and at the same position, with
    nothing for the skipped lines. *)
Theorem batch_answers_align_with_valid_lines
    (style : str) (token_limit : PyVal) (len_limit : option Z)
    (input : list PyVal) (st : Store S) :
  one_reply_per_conversation E ->
  existsb (valid len_limit) input = true ->
  existsb (oversized len_limit) input = false ->
  let message := map (buildConversation style) (surviving len_limit input) in
  exists answers replies s',
    run_batch E (engine_state st) message 16 token_limit = (inr replies, s')
    /\ inference E (VStr style) (VList input) VPipeline token_limit
         len_limit st
       = (inr (VList (map VStr answers)),
          (s', calls st ++ [CallBatch message 16 token_limit]))
    /\ length answers = length (filter (valid len_limit) input)
    /\ length replies = length message
    /\ Forall2 (fun a x => extract a = inr x) replies answers.
Proof.
  intros Hengine Hvalid Hover message.
  destruct (Hengine (engine_state st) message 16%Z token_limit)
    as [replies [s' [Hrun [Hlen Hstruct]]]].
  destruct (extract_all_ok Hstruct) as [answers [Hextract Haligned]].
  exists answers, replies, s'.
  split; [exact Hrun|]. split; [|split; [|split]]; try assumption.
  - rewrite inference_batch. unfold batch_outcome. rewrite Hover.
    fold message.
    assert (Hne : is_empty_list message = false).
    { unfold message, surviving. rewrite map_map.
      pose proof (existsb_filter_nonempty _ _ Hvalid) as Hf.
      destruct (filter (valid len_limit) input); [congruence | reflexivity]. }
    rewrite Hne. unfold engine_state in Hrun. rewrite Hrun, Hextract.
    reflexivity.
  - rewrite <- (Forall2_length Haligned), Hlen.
    unfold message, surviving. now rewrite !length_map.
Qed.

(** *** Single-string mode *)

(** C7. In single-string mode the input is trimmed; if the trimmed text is
    empty, as for three spaces, [inference] fails with [EmptyInputError],
    and if the trimmed length is over a finite limit, as for [limit + 1]
    letters, it fails with [LengthExceededError]; both are [ValueError]s and
    both leave the store untouched: no engine call was made. *)
Theorem single_string_validation
    (style : str) (token_limit : PyVal) (st : Store S) :
  let run input len_limit :=
    inference E (VStr style) (VStr input) VPipeline token_limit
      len_limit st in
  (forall input len_limit,
      strip input = [] -> run input len_limit = (inl EmptyInputError, st))
  /\ (forall input limit,
        (0 <= limit)%Z -> (len (strip input) > limit)%Z ->
        run input (Some limit) = (inl LengthExceededError, st))
  /\ (forall len_limit, run (lit "   ") len_limit = (inl EmptyInputError, st))
  /\ (forall limit : nat,
        run (repeat 97%N (limit + 1)) (Some (Z.of_nat limit))
        = (inl LengthExceededError, st))
  /\ exc_class EmptyInputError = ValueError
  /\ exc_class LengthExceededError = ValueError.
Proof.
  intros run.
  assert (Hlong : forall input limit,
             (0 <= limit)%Z -> (len (strip input) > limit)%Z ->
             run input (Some limit) = (inl LengthExceededError, st)).
  { intros input limit H0 Hgt. unfold run, inference; simpl.
    destruct (strip input) as [|c t] eqn:Hs.
    - unfold len in Hgt. simpl in Hgt. lia.
    - simpl. replace (len (c :: t) >? limit)%Z with true; [reflexivity|].
      symmetry. rewrite Z.gtb_ltb. apply Z.ltb_lt. lia. }
  split; [|split; [exact Hlong | split; [|split; [|split; reflexivity]]]].
  - intros input len_limit Hs. unfold run, inference; simpl.
    now rewrite Hs.
  - reflexivity.
  - intros limit. apply Hlong; [lia|].
    assert (Hstrip : forall n, strip (repeat 97%N n) = repeat 97%N n).
    { intros n. unfold strip, rstrip.
      assert (Hl : forall m, lstrip (repeat 97%N m) = repeat 97%N m)
        by (intros [|m]; reflexivity).
      rewrite Hl, rev_repeat, Hl. apply rev_repeat. }
    rewrite Hstrip. unfold len. rewrite repeat_length. lia.
Qed.

(** *** Prompt construction *)

(** C8. The conversation submitted for a text is one system turn with the
    fixed instruction followed by one user turn that holds the trimmed text
    between quotes, a newline and the style, the text being embedded as it
    is. In single mode the call submits that conversation for the trimmed
    input; in batch mode it submits one such conversation per surviving
    line. *)
Theorem submitted_conversation_is_system_then_user
    (style : str) (token_limit : PyVal) (len_limit : option Z)
    (st : Store S) :
  (forall text,
      map role (buildConversation style text) = [lit "system"; lit "user"]
      /\ map content (buildConversation style text)
         = [ system_content;
             lit "Текст: " ++ [QUOTE] ++ text ++ [QUOTE; LF]
             ++ lit "Стиль: " ++ style ])
  /\ (forall input,
        strip input <> [] ->
        over_limit len_limit (strip input) = false ->
        calls (snd (inference E (VStr style) (VStr input) VPipeline
                      token_limit len_limit st))
        = calls st
          ++ [CallSingle (buildConversation style (strip input)) token_limit])
  /\ (forall input,
        existsb (valid len_limit) input = true ->
        existsb (oversized len_limit) input = false ->
        calls (snd (inference E (VStr style) (VList input) VPipeline
                      token_limit len_limit st))
        = calls st
          ++ [CallBatch
                (map (buildConversation style) (surviving len_limit input))
                16 token_limit]).
Proof.
  split; [|split].
  - intros text. split; reflexivity.
  - intros input Hne Hlim. unfold inference; simpl.
    destruct (strip input) as [|c t] eqn:Hs; [congruence|]. simpl.
    rewrite Hlim. unfold bind, pipe_single, lift, ret.
    match goal with
    | |- context [run_single E ?s ?m ?t] =>
        destruct (run_single E s m t) as [[e | reply] s']
    end; [reflexivity|].
    destruct (extract reply); reflexivity.
  - intros input Hvalid Hover. rewrite inference_batch.
    unfold batch_outcome. rewrite Hover.
    assert (Hne : is_empty_list
                    (map (buildConversation style) (surviving len_limit input))
                  = false).
    { unfold surviving. rewrite map_map.
      pose proof (existsb_filter_nonempty _ _ Hvalid) as Hf.
      destruct (filter (valid len_limit) input); [congruence | reflexivity]. }
    rewrite Hne.
    destruct (run_batch E (fst st) _ 16 token_limit) as [[e | answer] s'];
      [reflexivity|].
    destruct (extract_all answer); reflexivity.
Qed.

(** *** Type checks *)

(** C9. When [style] is not a string or [pipe] is not a text-generation
    pipeline, [inference] fails with a [TypeError], whatever the input is
    (valid or not) and with the store untouched: the type checks come before
    the validation of the input and before any engine call. *)
Theorem type_checks_come_first
    (style input pipe token_limit : PyVal) (len_limit : option Z)
    (st : Store S) :
  isinstance_str style = false
  \/ isinstance_TextGenerationPipeline pipe = false ->
  exists e,
    inference E style input pipe token_limit len_limit st = (inl e, st)
    /\ exc_class e = TypeError
    /\ (isinstance_str style = false -> e = style_type_error)
    /\ (isinstance_str style = true -> e = pipe_type_error).
Proof.
  intros H.
  assert (Hstyle : isinstance_str style = false ->
                   inference E style input pipe token_limit len_limit st
                   = (inl style_type_error, st)).
  { destruct style; intros Hs; try reflexivity; discriminate Hs. }
  destruct (isinstance_str style) eqn:Hs.
  - destruct H as [H | H]; [discriminate H|].
    exists pipe_type_error. split; [|split; [reflexivity | split]].
    + destruct style; try discriminate Hs.
      unfold inference. now rewrite H.
    + intros Hf. discriminate Hf.
    + reflexivity.
  - exists style_type_error. split; [|split; [reflexivity | split]].
    + now apply Hstyle.
    + reflexivity.
    + intros Ht. discriminate Ht.
Qed.

End Dispatch.

(* ===================================================================== *)
(** ** The refinement loop *)
(* ===================================================================== *)

Section Refinement.

Variable S : Type.
Variable tg : StyleTransfer S.
Variable style : str.

(** An accepted body ends the loop at once. *)
Lemma refine_accept (tries : nat) (body : str) (st : TransferStore S) :
  in_bounds (count_words body) = true ->
  refine tg style tries body st = (inr body, st).
Proof.
  intros H. destruct tries; [reflexivity|].
  cbn [refine]. now rewrite H.
Qed.

(** A rejected body costs one correction call, and the loop goes on with
    the reply and one try less. *)
Lemma refine_reject (tries : nat) (body : str) (st : TransferStore S) :
  in_bounds (count_words body) = false ->
  refine tg style (Datatypes.S tries) body st =
  match tg (fst st) (correction_text body) style with
  | (inr reply, s') =>
      refine tg style tries reply
        (s', snd st ++ [mkCall (correction_text body) style (inr reply)])
  | (inl e, s') =>
      (inl e, (s', snd st ++ [mkCall (correction_text body) style (inl e)]))
  end.
Proof.
  intros H. cbn [refine]. rewrite H. unfold correction_text.
  destruct (count_words body <? MIN_WORDS)%Z;
    unfold bind, run_style_transfer;
    match goal with
    | |- context [tg ?s ?t ?y] => destruct (tg s t y) as [[e | reply] s']
    end; reflexivity.
Qed.

(** What a run of the loop that returns has done. *)
Lemma refine_trace (tries : nat) :
  forall (body : str) (st : TransferStore S) body' st',
    refine tg style tries body st = (inr body', st') ->
    exists log,
      snd st' = snd st ++ log
      /\ corrections style body log body'
      /\ (length log <= tries)%nat
      /\ ((length log < tries)%nat -> in_bounds (count_words body') = true).
Proof.
  induction tries as [|tries IH]; intros body st body' st' Hrun.
  - injection Hrun as <- <-. exists []. rewrite app_nil_r.
    split; [reflexivity|]. split; [apply corrections_nil|].
    simpl. split; lia.
  - destruct (in_bounds (count_words body)) eqn:Hb.
    + rewrite refine_accept in Hrun by assumption.
      injection Hrun as <- <-. exists []. rewrite app_nil_r.
      split; [reflexivity|]. split; [apply corrections_nil|].
      simpl. split; [lia | auto].
    + rewrite refine_reject in Hrun by assumption.
      destruct (tg (fst st) (correction_text body) style)
        as [[e | reply] s']; [discriminate|].
      apply IH in Hrun as [log [Hlog [Hchain [Hle Hlt]]]].
      simpl in Hlog. rewrite <- app_assoc in Hlog. simpl in Hlog.
      eexists. split; [exact Hlog|].
      split; [now apply corrections_cons|].
      simpl. split; [lia|]. intros. apply Hlt. lia.
Qed.

(** With an engine that answers every correction of a rejected body with a
    body that is rejected again, the loop spends every try. *)
Lemma refine_exhausts (tries : nat) :
  (forall s body,
      in_bounds (count_words body) = false ->
      exists reply s',
        tg s (correction_text body) style = (inr reply, s')
        /\ in_bounds (count_words reply) = false) ->
  forall (body : str) (st : TransferStore S),
    in_bounds (count_words body) = false ->
    exists body' log s',
      refine tg style tries body st = (inr body', (s', snd st ++ log))
      /\ corrections style body log body'
      /\ length log = tries
      /\ in_bounds (count_words body') = false
      /\ (tries <> 0%nat ->
          exists log0 c, log = log0 ++ [c] /\ call_result c = inr body').
Proof.
  intros Hengine. induction tries as [|tries IH]; intros body st Hb.
  - exists body, [], (fst st). rewrite app_nil_r.
    split; [now destruct st|].
    split; [apply corrections_nil|].
    split; [reflexivity|]. split; [assumption | congruence].
  - rewrite refine_reject by assumption.
    destruct (Hengine (fst st) body Hb) as [reply [s1 [Hcall Hreply]]].
    rewrite Hcall.
    destruct (IH reply
                (s1, snd st ++ [mkCall (correction_text body) style (inr reply)])
                Hreply)
      as [body' [log [s' [Hrun [Hchain [Hlen [Hout Hlast]]]]]]].
    exists body', (mkCall (correction_text body) style (inr reply) :: log), s'.
    split.
    { rewrite Hrun. simpl. now rewrite <- app_assoc. }
    split; [now apply corrections_cons|].
    split; [simpl; congruence|].
    split; [assumption|].
    intros _. destruct tries as [|tries'].
    + destruct log; [|discriminate]. inversion Hchain; subst.
      exists [], (mkCall (correction_text body) style (inr body')).
      split; reflexivity.
    + destruct Hlast as [log0 [c [-> Hc]]]; [congruence|].
      exists (mkCall (correction_text body) style (inr reply) :: log0), c.
      split; [reflexivity | assumption].
Qed.

(** In particular an engine that never changes the word count of a rejected
    body never gets out of the loop before the budget is spent. *)
Lemma refine_with_length_preserving_engine (tries : nat) :
  (forall s body,
      in_bounds (count_words body) = false ->
      exists reply s',
        tg s (correction_text body) style = (inr reply, s')
        /\ count_words reply = count_words body) ->
  forall (body : str) (st : TransferStore S),
    in_bounds (count_words body) = false ->
    exists body' log s',
      refine tg style tries body st = (inr body', (s', snd st ++ log))
      /\ length log = tries
      /\ count_words body' = count_words body.
Proof.
  intros Hengine. induction tries as [|tries IH]; intros body st Hb.
  - exists body, [], (fst st). rewrite app_nil_r.
    split; [now destruct st | split; reflexivity].
  - rewrite refine_reject by assumption.
    destruct (Hengine (fst st) body Hb) as [reply [s1 [Hcall Hsame]]].
    rewrite Hcall.
    assert (Hreply : in_bounds (count_words reply) = false)
      by now rewrite Hsame.
    destruct (IH reply
                (s1, snd st ++ [mkCall (correction_text body) style (inr reply)])
                Hreply)
      as [body' [log [s' [Hrun [Hlen Hcount]]]]].
    exists body', (mkCall (correction_text body) style (inr reply) :: log), s'.
    split; [|split].
    + rewrite Hrun. simpl. now rewrite <- app_assoc.
    + simpl. congruence.
    + congruence.
Qed.

End Refinement.

Section Main.

Variable S : Type.
Variable tg : StyleTransfer S.

(** [main] up to the final text, once the first style transfer has
    answered. *)
Lemma main_from_draft_unfold (letter_type topic sign lang draft : str)
    (st : TransferStore S) :
  main_from_draft tg letter_type topic sign lang draft st =
  let style := style_for_tg letter_type in
  match tg (fst st) draft style with
  | (inr reply, s') =>
      match refine tg style 6 reply
              (s', snd st ++ [mkCall draft style (inr reply)]) with
      | (inr body, st') => (inr (format_final_letter topic body sign lang), st')
      | (inl e, st') => (inl e, st')
      end
  | (inl e, s') => (inl e, (s', snd st ++ [mkCall draft style (inl e)]))
  end.
Proof.
  unfold main_from_draft, bind, run_style_transfer, ret.
  cbv zeta.
  destruct (tg (fst st) draft (style_for_tg letter_type)) as [[e | reply] s'];
    reflexivity.
Qed.

(** C2. With a style-transfer engine whose replies never have a word count
    within [MIN_WORDS, MAX_WORDS], the loop of [main] makes exactly six
    correction calls after the first style transfer, raises nothing, and the
    body that is formatted is the reply of the last call, still out of
    bounds. *)
Theorem refinement_exhausts_budget_and_returns_last_body
    (letter_type topic sign lang draft : str) (st : TransferStore S) :
  (forall s text style,
      exists reply s',
        tg s text style = (inr reply, s')
        /\ in_bounds (count_words reply) = false) ->
  exists first body log log0 last_call s',
    main_from_draft tg letter_type topic sign lang draft st
    = (inr (format_final_letter topic body sign lang),
       (s', snd st
            ++ mkCall draft (style_for_tg letter_type) (inr first) :: log))
    /\ corrections (style_for_tg letter_type) first log body
    /\ length log = 6%nat
    /\ log = log0 ++ [last_call]
    /\ call_result last_call = inr body
    /\ in_bounds (count_words body) = false.
Proof.
  intros Hengine. rewrite main_from_draft_unfold. cbv zeta.
  destruct (Hengine (fst st) draft (style_for_tg letter_type))
    as [first [s1 [Hfirst Hout]]].
  rewrite Hfirst.
  destruct (@refine_exhausts S tg (style_for_tg letter_type) 6
              (fun s body _ =>
                 Hengine s (correction_text body) (style_for_tg letter_type))
              first
              (s1, snd st
                   ++ [mkCall draft (style_for_tg letter_type) (inr first)])
              Hout)
    as [body [log [s' [Hrun [Hchain [Hlen [Hbody Hlast]]]]]]].
  destruct Hlast as [log0 [last_call [Hlog Hres]]]; [discriminate|].
  exists first, body, log, log0, last_call, s'.
  rewrite Hrun. simpl. rewrite <- app_assoc. simpl.
  repeat split; assumption.
Qed.

(** C4. The loop exits on first acceptance. At a check where the body is
    within bounds the loop returns that body and makes no call; a run of the
    loop that returns has made one correction call per rejected body and
    nothing else, at most [tries] of them, and if it stopped before the
    budget was spent the returned body is within bounds; the body the loop
    returns is the one [main] formats; and when the first style transfer is
    already within bounds [main] makes no correction call. *)
Theorem refinement_exits_on_first_acceptance
    (style : str) (st : TransferStore S) :
  (forall tries body,
      in_bounds (count_words body) = true ->
      refine tg style tries body st = (inr body, st))
  /\ (forall tries body body' st',
        refine tg style tries body st = (inr body', st') ->
        exists log,
          snd st' = snd st ++ log
          /\ corrections style body log body'
          /\ (length log <= tries)%nat
          /\ ((length log < tries)%nat ->
              in_bounds (count_words body') = true))
  /\ (forall letter_type topic sign lang draft final_text st',
        main_from_draft tg letter_type topic sign lang draft st
        = (inr final_text, st') ->
        exists first body log,
          snd st'
          = snd st ++ mkCall draft (style_for_tg letter_type) (inr first) :: log
          /\ corrections (style_for_tg letter_type) first log body
          /\ (length log <= 6)%nat
          /\ ((length log < 6)%nat -> in_bounds (count_words body) = true)
          /\ final_text = format_final_letter topic body sign lang)
  /\ (forall letter_type topic sign lang draft first s',
        tg (fst st) draft (style_for_tg letter_type) = (inr first, s') ->
        in_bounds (count_words first) = true ->
        main_from_draft tg letter_type topic sign lang draft st
        = (inr (format_final_letter topic first sign lang),
           (s', snd st
                ++ [mkCall draft (style_for_tg letter_type) (inr first)]))).
Proof.
  split; [|split; [|split]].
  - intros tries body Hb. now apply refine_accept.
  - intros tries body body' st' Hrun. revert Hrun. apply refine_trace.
  - intros letter_type topic sign lang draft final_text st' Hrun.
    rewrite main_from_draft_unfold in Hrun. cbv zeta in Hrun.
    destruct (tg (fst st) draft (style_for_tg letter_type))
      as [[e | first] s1]; [discriminate|].
    destruct (refine tg (style_for_tg letter_type) 6 first _)
      as [[e | body] st1] eqn:Hloop; [discriminate|].
    injection Hrun as <- <-.
    apply refine_trace in Hloop as [log [Hlog [Hchain [Hle Hlt]]]].
    simpl in Hlog. rewrite <- app_assoc in Hlog.
    exists first, body, log. repeat split; assumption.
  - intros letter_type topic sign lang draft first s' Hfirst Hb.
    rewrite main_from_draft_unfold. cbv zeta.
    rewrite Hfirst, refine_accept by assumption. reflexivity.
Qed.

End Main.

(* ===================================================================== *)
(** ** Runs on concrete inputs *)
(* ===================================================================== *)

Lemma echo_engine_one_reply : one_reply_per_conversation echo_engine.
Proof.
  intros s message batch_size max_new_tokens.
  exists (map echo_reply message), s.
  split; [reflexivity|]. split; [apply length_map|].
  apply Forall_forall. intros a Ha.
  apply in_map_iff in Ha as [c [<- _]].
  unfold echo_reply, extract. cbn [generated_text].
  rewrite rev_app_distr. simpl. eauto.
Qed.

(** A batch of four raw lines under a limit of 3: two are dropped, one is
    valid, and the last one aborts the batch. *)
Lemma batch_skips_invalid_and_aborts_on_oversized_witness :
  (0 <= 3)%Z
  /\ inference echo_engine (VStr (lit "official"))
       (VList [VStr (lit "ok"); VInt 5; VStr (lit "   ");
               VStr (lit " too long ")])
       VPipeline VNone (Some 3%Z) (tt, [])
     = (inl BatchLengthExceededError, (tt, [])).
Proof.
  split; [lia|].
  apply (proj1 (proj2
    (@batch_skips_invalid_and_aborts_on_oversized unit echo_engine
       (lit "official") VNone 3%Z (tt, []) ltac:(lia)))).
  reflexivity.
Defined.

(** A batch of empty and blank lines. *)
Lemma batch_without_valid_line_fails_empty_witness :
  inference echo_engine (VStr (lit "official"))
    (VList [VStr (lit ""); VStr (lit "   "); VNone])
    VPipeline VNone (Some 200%Z) (tt, [])
  = (inl EmptyBatchError, (tt, []))
  /\ exc_class EmptyBatchError = ValueError.
Proof.
  apply (@batch_without_valid_line_fails_empty unit echo_engine).
  reflexivity.
Defined.

(** C5 as stated fails: a batch with a valid line and an oversized line,
    run with an engine that returns one structured reply per conversation,
    raises the length error instead of returning a sequence. *)
Lemma batch_with_valid_and_oversized_line_raises :
  one_reply_per_conversation echo_engine
  /\ existsb (valid (Some 3%Z)) [VStr (lit "ok"); VStr (lit "too long")] = true
  /\ inference echo_engine (VStr (lit "official"))
       (VList [VStr (lit "ok"); VStr (lit "too long")])
       VPipeline VNone (Some 3%Z) (tt, [])
     = (inl BatchLengthExceededError, (tt, [])).
Proof.
  split; [exact echo_engine_one_reply|]. split; reflexivity.
Qed.

(** Four raw lines, two of them valid: two answers, in the order of the
    valid lines. *)
Lemma batch_answers_align_with_valid_lines_witness :
  let input := [VStr (lit "  hello "); VNone; VStr (lit "  ");
                VStr (lit "world")] in
  let message :=
    map (buildConversation (lit "official")) (surviving (Some 10%Z) input) in
  exists answers replies s',
    run_batch echo_engine tt message 16 VNone = (inr replies, s')
    /\ inference echo_engine (VStr (lit "official")) (VList input) VPipeline
         VNone (Some 10%Z) (tt, [])
       = (inr (VList (map VStr answers)),
          (s', [CallBatch message 16 VNone]))
    /\ length answers = length (filter (valid (Some 10%Z)) input)
    /\ length replies = length message
    /\ Forall2 (fun a x => extract a = inr x) replies answers.
Proof.
  intros input message.
  apply (@batch_answers_align_with_valid_lines unit echo_engine
           (lit "official") VNone (Some 10%Z) input (tt, [])).
  - exact echo_engine_one_reply.
  - reflexivity.
  - reflexivity.
Defined.

(** A style that is not a string, with a blank input and an object that is
    callable but is not a pipeline. *)
Lemma type_checks_come_first_witness :
  exists e,
    inference echo_engine (VInt 3) (VStr (lit "   "))
      (VObject "Mock" true) VNone (Some 200%Z) (tt, [])
    = (inl e, (tt, []))
    /\ exc_class e = TypeError
    /\ (isinstance_str (VInt 3) = false -> e = style_type_error)
    /\ (isinstance_str (VInt 3) = true -> e = pipe_type_error).
Proof.
  apply (@type_checks_come_first unit echo_engine).
  left. reflexivity.
Defined.

(** An engine that answers every call with an empty body. *)
Lemma refinement_exhausts_budget_and_returns_last_body_witness :
  exists first body log log0 last_call s',
    main_from_draft (constant_transfer []) (lit "официальное")
      (lit "Запрос информации") (lit "С уважением, Илья") (lit "ru")
      (lit "черновик") (tt, [])
    = (inr (format_final_letter (lit "Запрос информации") body
              (lit "С уважением, Илья") (lit "ru")),
       (s', [] ++ mkCall (lit "черновик")
                    (style_for_tg (lit "официальное")) (inr first) :: log))
    /\ corrections (style_for_tg (lit "официальное")) first log body
    /\ length log = 6%nat
    /\ log = log0 ++ [last_call]
    /\ call_result last_call = inr body
    /\ in_bounds (count_words body) = false.
Proof.
  apply (@refinement_exhausts_budget_and_returns_last_body unit
           (constant_transfer [])).
  intros s text style. exists [], s. split; reflexivity.
Defined.

Example refinement_with_constant_engine :
  let run := main_from_draft (constant_transfer (lit "Коротко."))
               (lit "дружеское") (lit "Тема") (lit "Илья") (lit "en")
               (lit "черновик") (tt, []) in
  fst run = inr (lit "Subject: " ++ lit "Тема" ++ [LF; LF] ++ lit "Коротко."
                 ++ [LF; LF] ++ lit "Илья" ++ [LF])
  /\ length (snd (snd run)) = 7%nat
  /\ map call_text (snd (snd run))
     = lit "черновик"
       :: repeat (lit "Коротко." ++ [LF; LF]
                  ++ lit "Сделай письмо чуть подробнее.") 6.
Proof. vm_compute. repeat split. Qed.

Example single_mode_embeds_quotes_unescaped :
  calls (snd (inference echo_engine (VStr (lit "official"))
                (VStr ([SPACE] ++ lit "say " ++ [QUOTE] ++ lit "hi" ++ [QUOTE]
                       ++ [LF]))
                VPipeline (VInt 50) (Some 200%Z) (tt, [])))
  = [CallSingle
       [ {| role := lit "system"; content := system_content |};
         {| role := lit "user";
            content := lit "Текст: " ++ [QUOTE]
                       ++ (lit "say " ++ [QUOTE] ++ lit "hi" ++ [QUOTE])
                       ++ [QUOTE; LF] ++ lit "Стиль: " ++ lit "official" |} ]
       (VInt 50)].
Proof. reflexivity. Qed.

Example batch_limit_applies_to_trimmed_line :
  inference echo_engine (VStr (lit "official"))
    (VList [VStr (lit "        "); VStr (lit "   ab   "); VInt 7])
    VPipeline VNone (Some 2%Z) (tt, [])
  = (inr (VList [VStr (lit "Текст: " ++ [QUOTE] ++ lit "ab" ++ [QUOTE; LF]
                       ++ lit "Стиль: " ++ lit "official")]),
     (tt, [CallBatch [buildConversation (lit "official") (lit "ab")] 16 VNone])).
Proof. reflexivity. Qed.

(** The two maximal runs of "a b". *)
Lemma count_words_counts_maximal_runs_witness :
  maximal_runs (lit "a b") [lit "a"; lit "b"]
  /\ count_words (lit "a b") = Z.of_nat (length [lit "a"; lit "b"]).
Proof.
  assert (H : maximal_runs (lit "a b") [lit "a"; lit "b"]).
  { exact (@runs_next [] (lit "a") ([SPACE] ++ lit "b") [lit "b"]
             eq_refl ltac:(discriminate) eq_refl
             (fun c Hc => match Hc in _ = o
                                return match o with
                                       | Some c' => word_char c' = false
                                       | None => True
                                       end
                          with eq_refl => eq_refl end)
             (@runs_next [SPACE] (lit "b") [] []
                eq_refl ltac:(discriminate) eq_refl
                ltac:(discriminate) (@runs_none [] eq_refl))). }
  split; [exact H|].
  exact (proj1 (proj2 count_words_counts_maximal_runs) _ _ H).
Defined.

(** A first style transfer of 120 words: no correction call. *)
Lemma refinement_exits_on_first_acceptance_witness :
  let body := concat (repeat (lit "слово ") 120) in
  in_bounds (count_words body) = true
  /\ main_from_draft (constant_transfer body) (lit "дружеское")
       (lit "Тема") (lit "Илья") (lit "ru") (lit "черновик") (tt, [])
     = (inr (format_final_letter (lit "Тема") body (lit "Илья") (lit "ru")),
        (tt, [] ++ [mkCall (lit "черновик") (style_for_tg (lit "дружеское"))
                      (inr body)])).
Proof.
  intros body. split; [reflexivity|].
  apply (proj2 (proj2 (proj2
    (@refinement_exits_on_first_acceptance unit (constant_transfer body)
       (lit "friendly") (tt, []))))).
  - reflexivity.
  - reflexivity.
Defined.

(** Four letters between blanks under a limit of 3. *)
Lemma single_string_validation_witness :
  (0 <= 3)%Z
  /\ (len (strip (lit " abcd ")) > 3)%Z
  /\ inference echo_engine (VStr (lit "official")) (VStr (lit " abcd "))
       VPipeline VNone (Some 3%Z) (tt, [])
     = (inl LengthExceededError, (tt, [])).
Proof.
  split; [lia|]. split; [reflexivity|].
  apply (proj1 (proj2
    (@single_string_validation unit echo_engine (lit "official") VNone
       (tt, [])))).
  - lia.
  - reflexivity.
Defined.

(** A text with quotes in it, in single mode and in a batch. *)
Lemma submitted_conversation_is_system_then_user_witness :
  let quoted := lit "say " ++ [QUOTE] ++ lit "hi" ++ [QUOTE] in
  calls (snd (inference echo_engine (VStr (lit "official"))
                (VStr ([SPACE] ++ quoted ++ [LF])) VPipeline (VInt 50)
                (Some 200%Z) (tt, [])))
  = [] ++ [CallSingle
             (buildConversation (lit "official")
                (strip ([SPACE] ++ quoted ++ [LF])))
             (VInt 50)]
  /\ strip ([SPACE] ++ quoted ++ [LF]) = quoted
  /\ calls (snd (inference echo_engine (VStr (lit "official"))
                   (VList [VNone; VStr quoted; VStr (lit "  "); VStr (lit "b ")])
                   VPipeline (VInt 50) (Some 200%Z) (tt, [])))
     = [] ++ [CallBatch
                (map (buildConversation (lit "official"))
                   (surviving (Some 200%Z)
                      [VNone; VStr quoted; VStr (lit "  "); VStr (lit "b ")]))
                16 (VInt 50)].
Proof.
  intros quoted.
  pose proof (@submitted_conversation_is_system_then_user unit echo_engine
                (lit "official") (VInt 50) (Some 200%Z) (tt, []))
    as [_ [Hsingle Hbatch]].
  split; [|split].
  - apply Hsingle; [discriminate | reflexivity].
  - reflexivity.
  - apply Hbatch; reflexivity.
Defined.

(** A blank line longer than the limit is dropped, not counted as too
    long. *)
Lemma batch_length_check_is_on_trimmed_line_after_skip_witness :
  skipped (VStr (lit "        ")) = true
  /\ inference echo_engine (VStr (lit "official"))
       (VList ([VStr (lit " ab ")] ++ VStr (lit "        ") :: [VInt 7]))
       VPipeline VNone (Some 2%Z) (tt, [])
     = inference echo_engine (VStr (lit "official"))
         (VList ([VStr (lit " ab ")] ++ [VInt 7]))
         VPipeline VNone (Some 2%Z) (tt, []).
Proof.
  split; [reflexivity|].
  apply (proj1 (proj2
    (@batch_length_check_is_on_trimmed_line_after_skip unit echo_engine
       (lit "official") VNone (tt, [])))).
  reflexivity.
Defined.

(* ===================================================================== *)
(** ** Facts about trimming, splitting and joining *)
(* ===================================================================== *)

Section Strings.

Lemma lstrip_length (s : str) : (length (lstrip s) <= length s)%nat.
Proof.
  induction s as [|c s IH]; simpl; [lia|].
  destruct (isspace c); simpl; lia.
Qed.

Lemma strip_length (s : str) : (length (strip s) <= length s)%nat.
Proof.
  unfold strip, rstrip. rewrite length_rev.
  etransitivity; [apply lstrip_length|]. rewrite length_rev.
  apply lstrip_length.
Qed.

Lemma len_strip (s : str) : (len (strip s) <= len s)%Z.
Proof. unfold len. pose proof (strip_length s). lia. Qed.

Lemma lstrip_no_leading_space (s : str) : no_leading_space (lstrip s) = true.
Proof.
  induction s as [|c s IH]; simpl; [reflexivity|].
  destruct (isspace c) eqn:Hc; [exact IH|]. simpl. now rewrite Hc.
Qed.

Lemma lstrip_fixed (s : str) : no_leading_space s = true -> lstrip s = s.
Proof.
  destruct s as [|c s]; simpl; [reflexivity|].
  intros H. apply negb_true_iff in H. now rewrite H.
Qed.

Lemma lstrip_suffix (s : str) :
  exists ws, s = ws ++ lstrip s /\ forallb isspace ws = true.
Proof.
  induction s as [|c s [ws [Hs Hws]]]; simpl.
  - exists []. split; reflexivity.
  - destruct (isspace c) eqn:Hc.
    + exists (c :: ws). simpl. rewrite Hc, Hws. split; [now f_equal | reflexivity].
    + exists []. split; reflexivity.
Qed.

Lemma strip_is_trimmed (s : str) : is_trimmed (strip s) = true.
Proof.
  unfold is_trimmed, strip, rstrip. rewrite rev_involutive.
  rewrite lstrip_no_leading_space, andb_true_r.
  destruct (lstrip_suffix (rev (lstrip s))) as [ws [Hs _]].
  apply (f_equal (@rev _)) in Hs. rewrite rev_involutive, rev_app_distr in Hs.
  pose proof (lstrip_no_leading_space s) as Hhead. rewrite Hs in Hhead.
  destruct (rev (lstrip (rev (lstrip s)))); [reflexivity | exact Hhead].
Qed.

Lemma strip_fixed (t : str) : is_trimmed t = true -> strip t = t.
Proof.
  unfold is_trimmed, strip, rstrip. intros H.
  apply andb_true_iff in H as [Hl Hr].
  rewrite (lstrip_fixed _ Hl), (lstrip_fixed _ Hr). apply rev_involutive.
Qed.

Lemma strip_idempotent (s : str) : strip (strip s) = strip s.
Proof. apply strip_fixed, strip_is_trimmed. Qed.

End Strings.

(* ===================================================================== *)
(** ** Further properties of [inference] *)
(* ===================================================================== *)

Section InferenceMore.

Variable S : Type.
Variable E : Engine S.

Lemma inference_single (style : str) (token_limit : PyVal)
    (len_limit : option Z) (input : str) (st : Store S) :
  inference E (VStr style) (VStr input) VPipeline token_limit len_limit st
  = single_outcome E style token_limit len_limit input st.
Proof.
  unfold inference, single_outcome, buildConversation.
  cbn [isinstance_TextGenerationPipeline negb].
  destruct (is_empty (strip input)); [reflexivity|].
  destruct (over_limit len_limit (strip input)); [reflexivity|].
  unfold bind, pipe_single, lift, ret.
  match goal with
  | |- context [run_single E ?s ?m ?t] =>
      destruct (run_single E s m t) as [[e | reply] s']
  end; [reflexivity|].
  destruct (extract reply); reflexivity.
Qed.

(** An input that is neither a string nor a list is refused with a
    [TypeError] once the style and the pipeline have passed their checks;
    no call is made. *)
Theorem inference_rejects_other_input_types
    (style : str) (input token_limit : PyVal) (len_limit : option Z)
    (st : Store S) :
  isinstance_str input = false ->
  isinstance_list input = false ->
  inference E (VStr style) input VPipeline token_limit len_limit st
  = (inl input_type_error, st)
  /\ exc_class input_type_error = TypeError.
Proof.
  intros Hs Hl. split; [|reflexivity].
  destruct input; try discriminate Hs; try discriminate Hl; reflexivity.
Qed.

Lemma surviving_dispatchable (len_limit : option Z) (input : list PyVal) :
  forallb (dispatchable len_limit) (surviving len_limit input) = true.
Proof.
  unfold surviving. induction input as [|ln rest IH]; [reflexivity|].
  simpl. destruct (valid len_limit ln) eqn:Hv; [|exact IH].
  simpl. rewrite IH, andb_true_r.
  destruct ln as [| b | z | s | l | | c k]; simpl in Hv; try discriminate Hv.
  simpl. unfold dispatchable. apply andb_true_iff in Hv as [Hne Hlim].
  now rewrite Hne, Hlim, strip_is_trimmed.
Qed.

(** The calls a run of [inference] adds to the store. *)
Lemma inference_calls (style input pipe token_limit : PyVal)
    (len_limit : option Z) (st : Store S) :
  exists log,
    calls (snd (inference E style input pipe token_limit len_limit st))
    = calls st ++ log
    /\ (length log <= 1)%nat
    /\ forall c, In c log ->
         exists s,
           style = VStr s /\ pipe = VPipeline
           /\ well_formed_call s token_limit len_limit c.
Proof.
  assert (Hnone : forall r : Exception + PyVal,
             exists log,
               calls (snd (r, st)) = calls st ++ log
               /\ (length log <= 1)%nat
               /\ forall c, In c log ->
                    exists s,
                      style = VStr s /\ pipe = VPipeline
                      /\ well_formed_call s token_limit len_limit c).
  { intros r. exists []. rewrite app_nil_r.
    split; [reflexivity|]. split; [simpl; lia|]. intros c []. }
  destruct style as [| b | z | s | l | | c k]; try apply Hnone.
  destruct pipe as [| b | z | s' | l | | c k]; try apply Hnone.
  destruct input as [| b | z | text | lines | | c k]; try apply Hnone.
  - rewrite inference_single. unfold single_outcome.
    destruct (is_empty (strip text)) eqn:Hne; [apply Hnone|].
    destruct (over_limit len_limit (strip text)) eqn:Hlim; [apply Hnone|].
    exists [CallSingle (buildConversation s (strip text)) token_limit].
    split; [|split; [simpl; lia|]].
    + destruct (run_single E (fst st) _ token_limit) as [[e | reply] s1];
        [reflexivity|].
      destruct (extract reply); reflexivity.
    + intros c [<- | []]. exists s. repeat split.
      exists (strip text). split; [|reflexivity].
      unfold dispatchable. now rewrite Hne, Hlim, strip_is_trimmed.
  - rewrite inference_batch. unfold batch_outcome.
    destruct (existsb (oversized len_limit) lines); [apply Hnone|].
    destruct (is_empty_list
                (map (buildConversation s) (surviving len_limit lines)))
      eqn:Hne; [apply Hnone|].
    exists [CallBatch (map (buildConversation s) (surviving len_limit lines))
              16 token_limit].
    split; [|split; [simpl; lia|]].
    + destruct (run_batch E (fst st) _ 16 token_limit) as [[e | answer] s1];
        [reflexivity|].
      destruct (extract_all answer); reflexivity.
    + intros c [<- | []]. exists s. repeat split.
      * intros Hnil. rewrite Hnil in Hne. discriminate Hne.
      * exists (surviving len_limit lines).
        split; [apply surviving_dispatchable | reflexivity].
Qed.

(** Whatever its arguments and whatever the engine does, [inference] calls
    the engine at most once and keeps the record of the earlier calls. *)
Theorem inference_calls_engine_at_most_once
    (style input pipe token_limit : PyVal) (len_limit : option Z)
    (st : Store S) :
  exists log,
    calls (snd (inference E style input pipe token_limit len_limit st))
    = calls st ++ log
    /\ (length log <= 1)%nat.
Proof.
  destruct (inference_calls style input pipe token_limit len_limit st)
    as [log [Hlog [Hlen _]]].
  exists log. now split.
Qed.

(** Whatever [inference] submits has passed the checks: the style is a
    string, the pipeline is a pipeline, every text in the call is not
    empty, has no white space at either end and is within the limit, a
    batch is not empty and goes with a batch size of 16, and the token limit
    is the caller's. *)
Theorem inference_submits_only_validated_texts
    (style input pipe token_limit : PyVal) (len_limit : option Z)
    (st : Store S) (before : list PipeCall) (c : PipeCall) :
  calls (snd (inference E style input pipe token_limit len_limit st))
  = before ++ [c] ->
  calls st = before ->
  exists s,
    style = VStr s /\ pipe = VPipeline
    /\ well_formed_call s token_limit len_limit c.
Proof.
  intros Hcalls Hbefore.
  destruct (inference_calls style input pipe token_limit len_limit st)
    as [log [Hlog [_ Hwf]]].
  rewrite Hlog, Hbefore in Hcalls. apply app_inv_head in Hcalls.
  apply Hwf. rewrite Hcalls. now left.
Qed.

End InferenceMore.

Section EngineReplies.

Variable S : Type.
Variable E : Engine S.

(** An exception of the engine is not caught: it leaves [inference] as it
    is, in single and in batch mode, after the call has been made. *)
Theorem inference_propagates_engine_errors
    (style : str) (token_limit : PyVal) (len_limit : option Z)
    (st : Store S) (e : Exception) (s' : S) :
  (forall input,
      strip input <> [] ->
      over_limit len_limit (strip input) = false ->
      run_single E (engine_state st)
        (buildConversation style (strip input)) token_limit = (inl e, s') ->
      inference E (VStr style) (VStr input) VPipeline token_limit len_limit st
      = (inl e,
         (s', calls st
              ++ [CallSingle (buildConversation style (strip input))
                    token_limit])))
  /\ (forall input,
        existsb (valid len_limit) input = true ->
        existsb (oversized len_limit) input = false ->
        run_batch E (engine_state st)
          (map (buildConversation style) (surviving len_limit input))
          16 token_limit = (inl e, s') ->
        inference E (VStr style) (VList input) VPipeline token_limit
          len_limit st
        = (inl e,
           (s', calls st
                ++ [CallBatch
                      (map (buildConversation style)
                         (surviving len_limit input))
                      16 token_limit]))).
Proof.
  split.
  - intros input Hne Hlim Hrun. rewrite inference_single.
    unfold single_outcome.
    destruct (strip input) as [|c t] eqn:Hs; [congruence|].
    cbn [is_empty]. rewrite Hlim.
    unfold engine_state in Hrun. now rewrite Hrun.
  - intros input Hvalid Hover Hrun. rewrite inference_batch.
    unfold batch_outcome. rewrite Hover.
    assert (Hne : is_empty_list
                    (map (buildConversation style) (surviving len_limit input))
                  = false).
    { unfold surviving. rewrite map_map.
      pose proof (existsb_filter_nonempty _ _ Hvalid) as Hf.
      destruct (filter (valid len_limit) input); [congruence | reflexivity]. }
    rewrite Hne. unfold engine_state in Hrun. now rewrite Hrun.
Qed.

Lemma extract_last (g : Generated) (rest : Reply) (turns : list Message)
    (m : Message) :
  generated_text g = turns ++ [m] -> extract (g :: rest) = inr (content m).
Proof.
  intros Hg. unfold extract. rewrite Hg, rev_app_distr. reflexivity.
Qed.

Lemma extract_error (a : Reply) (e : Exception) :
  extract a = inl e -> e = index_error.
Proof.
  unfold extract. destruct a as [|g rest]; [congruence|].
  destruct (rev (generated_text g)); congruence.
Qed.

(** In single mode the answer is the content of the last turn of the first
    generated sequence of the reply, whatever else the reply holds; a reply
    without a generated sequence, or whose first sequence has no turn,
    raises [IndexError] after the call. *)
Theorem single_answer_is_last_turn_of_first_sequence
    (style : str) (token_limit : PyVal) (len_limit : option Z)
    (input : str) (st : Store S) (reply : Reply) (s' : S) :
  strip input <> [] ->
  over_limit len_limit (strip input) = false ->
  run_single E (engine_state st)
    (buildConversation style (strip input)) token_limit = (inr reply, s') ->
  let st' :=
    (s', calls st
         ++ [CallSingle (buildConversation style (strip input)) token_limit])
  in
  let run :=
    inference E (VStr style) (VStr input) VPipeline token_limit len_limit st
  in
  (forall g rest turns m,
      reply = g :: rest -> generated_text g = turns ++ [m] ->
      run = (inr (VStr (content m)), st'))
  /\ (reply = [] -> run = (inl index_error, st'))
  /\ (forall g rest,
        reply = g :: rest -> generated_text g = [] ->
        run = (inl index_error, st')).
Proof.
  intros Hne Hlim Hrun st' run.
  assert (Hout : run = (match extract reply with
                        | inl e => inl e
                        | inr a => inr (VStr a)
                        end, st')).
  { unfold run. rewrite inference_single. unfold single_outcome.
    destruct (strip input) as [|c t] eqn:Hs; [congruence|].
    cbn [is_empty]. rewrite Hlim.
    unfold engine_state in Hrun. rewrite Hrun.
    destruct (extract reply); reflexivity. }
  split; [|split].
  - intros g rest turns m -> Hg. now rewrite Hout, (@extract_last g rest turns m Hg).
  - intros ->. exact Hout.
  - intros g rest -> Hg. rewrite Hout. unfold extract. now rewrite Hg.
Qed.

Lemma extract_all_length (replies : list Reply) (answers : list str) :
  extract_all replies = inr answers ->
  length answers = length replies
  /\ Forall2 (fun a x => extract a = inr x) replies answers.
Proof.
  revert answers. induction replies as [|a rest IH]; simpl; intros answers H.
  - injection H as <-. split; [reflexivity | constructor].
  - destruct (extract a) as [e | x] eqn:Ha; [discriminate|].
    destruct (extract_all rest) as [e | xs]; [discriminate|].
    injection H as <-. destruct (IH xs eq_refl) as [Hlen Hall].
    split; [simpl; congruence | now constructor].
Qed.

Lemma extract_all_fails (replies : list Reply) :
  Exists (fun a => forall x, extract a <> inr x) replies ->
  extract_all replies = inl index_error.
Proof.
  induction 1 as [a rest Ha | a rest _ IH]; simpl.
  - destruct (extract a) as [e | x] eqn:Hx.
    + now rewrite (@extract_error a e Hx).
    + now destruct (Ha x).
  - rewrite IH. destruct (extract a) as [e | x] eqn:Hx; [|reflexivity].
    now rewrite (@extract_error a e Hx).
Qed.

(** In batch mode the number of replies is not compared with the number of
    conversations: there are as many answers as replies, in the order of the
    replies; and one reply without a turn to extract makes the whole call
    raise [IndexError], with no partial list of answers. *)
Theorem batch_answers_follow_the_replies
    (style : str) (token_limit : PyVal) (len_limit : option Z)
    (input : list PyVal) (st : Store S) (replies : list Reply) (s' : S) :
  existsb (valid len_limit) input = true ->
  existsb (oversized len_limit) input = false ->
  run_batch E (engine_state st)
    (map (buildConversation style) (surviving len_limit input))
    16 token_limit = (inr replies, s') ->
  let st' :=
    (s', calls st
         ++ [CallBatch
               (map (buildConversation style) (surviving len_limit input))
               16 token_limit])
  in
  let run :=
    inference E (VStr style) (VList input) VPipeline token_limit len_limit st
  in
  (Forall (fun a => exists x, extract a = inr x) replies ->
   exists answers,
     run = (inr (VList (map VStr answers)), st')
     /\ length answers = length replies
     /\ Forall2 (fun a x => extract a = inr x) replies answers)
  /\ (Exists (fun a => forall x, extract a <> inr x) replies ->
      run = (inl index_error, st')).
Proof.
  intros Hvalid Hover Hrun st' run.
  assert (Hout : run = (match extract_all replies with
                        | inl e => inl e
                        | inr xs => inr (VList (map VStr xs))
                        end, st')).
  { unfold run. rewrite inference_batch. unfold batch_outcome.
    rewrite Hover.
    assert (Hne : is_empty_list
                    (map (buildConversation style) (surviving len_limit input))
                  = false).
    { unfold surviving. rewrite map_map.
      pose proof (existsb_filter_nonempty _ _ Hvalid) as Hf.
      destruct (filter (valid len_limit) input); [congruence | reflexivity]. }
    rewrite Hne. unfold engine_state in Hrun. rewrite Hrun.
    destruct (extract_all replies); reflexivity. }
  split.
  - intros Hall. destruct (extract_all_ok Hall) as [answers [Hx _]].
    exists answers. rewrite Hout, Hx. split; [reflexivity|].
    now apply extract_all_length.
  - intros Hbad. now rewrite Hout, (@extract_all_fails replies Hbad).
Qed.

End EngineReplies.

Section Limits.

Variable S : Type.
Variable E : Engine S.

Lemma over_limit_raw (n : Z) (s : str) :
  (len s <= n)%Z -> over_limit (Some n) (strip s) = false.
Proof.
  intros H. simpl. pose proof (len_strip s).
  rewrite Z.gtb_ltb. apply Z.ltb_ge. lia.
Qed.

Lemma collect_raw_within_limit (style : str) (n : Z) (input : list PyVal) :
  (forall s, In (VStr s) input -> (len s <= n)%Z) ->
  forall message,
    collect style (Some n) input message = collect style None input message.
Proof.
  induction input as [|ln rest IH]; intros Hraw message; [reflexivity|].
  assert (Hrest : forall s, In (VStr s) rest -> (len s <= n)%Z)
    by (intros s Hs; apply Hraw; now right).
  destruct ln as [| b | z | s | l | | c k]; cbn [collect]; try now apply IH.
  rewrite (@over_limit_raw n s) by (apply Hraw; now left).
  cbn [over_limit].
  destruct (is_empty (strip s)); now apply IH.
Qed.

(** Trimming never lengthens a text, so a limit that the raw input already
    respects makes no difference: the run is the run without a limit, for a
    string and for a list of lines. *)
Theorem limit_respected_by_raw_input_changes_nothing
    (style : str) (token_limit : PyVal) (n : Z) (st : Store S) :
  (forall input : str,
      (len input <= n)%Z ->
      inference E (VStr style) (VStr input) VPipeline token_limit (Some n) st
      = inference E (VStr style) (VStr input) VPipeline token_limit None st)
  /\ (forall input : list PyVal,
        (forall s, In (VStr s) input -> (len s <= n)%Z) ->
        inference E (VStr style) (VList input) VPipeline token_limit
          (Some n) st
        = inference E (VStr style) (VList input) VPipeline token_limit
            None st).
Proof.
  split.
  - intros input Hraw. rewrite !inference_single. unfold single_outcome.
    now rewrite (over_limit_raw _ Hraw).
  - intros input Hraw. unfold inference.
    cbn [isinstance_TextGenerationPipeline negb].
    unfold bind at 1 3. unfold lift at 1 3.
    now rewrite (collect_raw_within_limit style _ Hraw).
Qed.

Lemma collect_dispatchable (style : str) (len_limit : option Z)
    (texts : list str) :
  forallb (dispatchable len_limit) texts = true ->
  forall message,
    collect style len_limit (map VStr texts) message
    = inr (message ++ map (buildConversation style) texts).
Proof.
  induction texts as [|t rest IH]; intros Hall message; simpl.
  - now rewrite app_nil_r.
  - simpl in Hall. apply andb_true_iff in Hall as [Ht Hrest].
    unfold dispatchable in Ht.
    apply andb_true_iff in Ht as [Ht Hlim].
    apply andb_true_iff in Ht as [Hne Htrim].
    rewrite (strip_fixed _ Htrim).
    apply negb_true_iff in Hne. apply negb_true_iff in Hlim.
    rewrite Hne, Hlim, IH by assumption.
    now rewrite <- app_assoc.
Qed.

(** Validation is idempotent: when no line is oversized, running a batch
    and running the batch of its surviving trimmed texts are the same run. *)
Theorem batch_of_surviving_texts_is_the_same_run
    (style : str) (token_limit : PyVal) (len_limit : option Z)
    (input : list PyVal) (st : Store S) :
  existsb (oversized len_limit) input = false ->
  inference E (VStr style) (VList input) VPipeline token_limit len_limit st
  = inference E (VStr style)
      (VList (map VStr (surviving len_limit input))) VPipeline token_limit
      len_limit st.
Proof.
  intros Hover. unfold inference.
  cbn [isinstance_TextGenerationPipeline negb].
  unfold bind at 1 3. unfold lift at 1 3.
  rewrite collect_spec, Hover.
  now rewrite (collect_dispatchable style len_limit _
                 (surviving_dispatchable len_limit input)).
Qed.

End Limits.

(* ===================================================================== *)
(** ** The command-line program of [genai_1_24.py] *)
(* ===================================================================== *)

Section Lines.

Lemma existsb_rev_false {A} (f : A -> bool) (l : list A) :
  existsb f l = false -> existsb f (rev l) = false.
Proof.
  intros H. apply not_true_is_false. intros Hr.
  apply existsb_exists in Hr as [x [Hin Hx]]. apply in_rev in Hin.
  assert (Ht : existsb f l = true) by (apply existsb_exists; eauto).
  congruence.
Qed.

Lemma lstrip_keeps_absence (f : codepoint -> bool) (s : str) :
  existsb f s = false -> existsb f (lstrip s) = false.
Proof.
  intros H. destruct (lstrip_suffix s) as [ws [Hs _]].
  rewrite Hs, existsb_app in H. now apply orb_false_iff in H.
Qed.

Lemma strip_keeps_absence (f : codepoint -> bool) (s : str) :
  existsb f s = false -> existsb f (strip s) = false.
Proof.
  intros H. unfold strip, rstrip.
  now apply existsb_rev_false, lstrip_keeps_absence, existsb_rev_false,
    lstrip_keeps_absence.
Qed.




End Lines.

Section FileMode.

Variable S : Type.
Variable E : Engine S.


Lemma batch_all_blank (style : str) (token_limit : PyVal)
    (len_limit : option Z) (lines : list str) (st : Store S) :
  Forall (fun line => strip line = []) lines ->
  inference E (VStr style) (VList (map VStr lines)) VPipeline token_limit
    len_limit st
  = (inl EmptyBatchError, st).
Proof.
  intros Hblank. rewrite inference_batch. unfold batch_outcome, surviving.
  assert (H : existsb (oversized len_limit) (map VStr lines) = false
              /\ filter (valid len_limit) (map VStr lines) = []).
  { induction Hblank as [|line rest Hline _ [IH1 IH2]]; [split; reflexivity|].
    simpl. rewrite Hline. simpl. now split. }
  destruct H as [-> ->]. reflexivity.
Qed.

Lemma batch_some_line_too_long (style : str) (token_limit : PyVal)
    (n : Z) (lines : list str) (st : Store S) :
  (0 <= n)%Z ->
  Exists (fun line => (len (strip line) > n)%Z) lines ->
  inference E (VStr style) (VList (map VStr lines)) VPipeline token_limit
    (Some n) st
  = (inl BatchLengthExceededError, st).
Proof.
  intros Hn Hlong. apply batch_abort_iff.
  apply existsb_exists. apply Exists_exists in Hlong as [line [Hin Hlen]].
  exists (VStr line). split; [now apply in_map|].
  apply exceeds_oversized; [assumption|]. simpl.
  rewrite Z.gtb_ltb. apply Z.ltb_lt. lia.
Qed.



(** One line of the input file longer than [MAX_INPUT_LENGTH] after
    trimming, or a file without any line that is not blank, and the file
    mode only prints the matching error: nothing is written and the engine
    is not called. *)
Theorem file_mode_refuses_long_lines_and_blank_files
    (W : World) (args : Args) (st : Store S) (content : str) :
  read_file W (input_file args) = inr content ->
  (Exists (fun line => (len (strip line) > MAX_INPUT_LENGTH)%Z)
     (splitlines content) ->
   file_mode E W args VPipeline st
   = (([Print (file_error_text BatchLengthExceededError)], Returned), st))
  /\ (Forall (fun line => strip line = []) (splitlines content) ->
      file_mode E W args VPipeline st
      = (([Print (file_error_text EmptyBatchError)], Returned), st)).
Proof.
  intros Hread. split.
  - intros Hlong. unfold file_mode. rewrite Hread.
    rewrite (@batch_some_line_too_long (style args) (VInt (tokens args))
               MAX_INPUT_LENGTH (splitlines content) st);
      [reflexivity | unfold MAX_INPUT_LENGTH; lia | exact Hlong].
  - intros Hblank. unfold file_mode. rewrite Hread.
    now rewrite (@batch_all_blank (style args) (VInt (tokens args))
                   (Some MAX_INPUT_LENGTH) (splitlines content) st Hblank).
Qed.

End FileMode.

Section FileModeCalls.

Variable S : Type.
Variable E : Engine S.



End FileModeCalls.

Section Realtime.

Variable S : Type.
Variable E : Engine S.

Lemma eqb_refl (a : str) : eqb a a = true.
Proof. unfold eqb. destruct (list_eq_dec N.eq_dec a a); congruence. Qed.

(** The interactive loop ends at the first [:q]: what is typed after it is
    never read. *)
Theorem realtime_loop_stops_at_quit
    (args : Args) (pipe_instance : PyVal) (before after : list str) :
  forall st : Store S,
    realtime_loop E args pipe_instance (before ++ lit ":q" :: after) st
    = realtime_loop E args pipe_instance (before ++ [lit ":q"]) st.
Proof.
  induction before as [|text rest IH]; intros st.
  - cbn [app realtime_loop]. now rewrite eqb_refl.
  - cbn [app realtime_loop].
    destruct (eqb text (lit ":q")); [reflexivity|].
    destruct (is_empty (strip text)).
    + now rewrite IH.
    + destruct (inference E (VStr (style args)) (VStr text) pipe_instance
                  (VInt (tokens args)) (Some MAX_INPUT_LENGTH) st)
        as [r st1].
      now rewrite IH.
Qed.

(** The interactive loop calls the engine at most once per line that is
    typed before the first [:q] and is not blank, never for another line,
    and only with a text that has passed the checks under
    [MAX_INPUT_LENGTH]. *)
Theorem realtime_loop_calls_engine_for_typed_texts_only
    (args : Args) (lines : list str) :
  forall st : Store S,
    exists log,
      calls (snd (realtime_loop E args VPipeline lines st)) = calls st ++ log
      /\ (length log <= length (submitted_lines lines))%nat
      /\ Forall (well_formed_call (style args) (VInt (tokens args))
                   (Some MAX_INPUT_LENGTH)) log.
Proof.
  induction lines as [|text rest IH]; intros st.
  - exists []. cbn. rewrite app_nil_r. repeat split; [lia | constructor].
  - cbn [realtime_loop submitted_lines].
    destruct (eqb text (lit ":q")).
    { exists []. cbn. rewrite app_nil_r. repeat split; [lia | constructor]. }
    destruct (is_empty (strip text)).
    { destruct (IH st) as [log [Hlog [Hlen Hwf]]].
      destruct (realtime_loop E args VPipeline rest st) as [[events how] st'].
      exists log. now repeat split. }
    destruct (@inference_calls S E (VStr (style args)) (VStr text) VPipeline
                (VInt (tokens args)) (Some MAX_INPUT_LENGTH) st)
      as [log1 [Hlog1 [Hlen1 Hwf1]]].
    destruct (inference E (VStr (style args)) (VStr text) VPipeline
                (VInt (tokens args)) (Some MAX_INPUT_LENGTH) st)
      as [r st1].
    destruct (IH st1) as [log [Hlog [Hlen Hwf]]].
    destruct (realtime_loop E args VPipeline rest st1) as [[events how] st'].
    exists (log1 ++ log). cbn [snd] in *.
    split; [rewrite Hlog, Hlog1; now rewrite app_assoc|].
    split; [rewrite length_app; simpl; lia|].
    apply Forall_app. split; [|exact Hwf].
    apply Forall_forall. intros c Hc.
    destruct (Hwf1 c Hc) as [s [Hs [_ Hc']]]. now injection Hs as <-.
Qed.


End Realtime.

(* ===================================================================== *)
(** ** Further properties of [main.py] *)
(* ===================================================================== *)

Section Letter.

Lemma eqb_eq (a b : str) : eqb a b = true <-> a = b.
Proof. unfold eqb. destruct (list_eq_dec N.eq_dec a b); split; congruence. Qed.

Lemma existsb_eqb_In (s : str) (l : list str) :
  existsb (eqb s) l = true <-> In s l.
Proof.
  rewrite existsb_exists. split.
  - intros [x [Hin Hx]]. apply eqb_eq in Hx. now subst.
  - intros Hin. exists s. split; [assumption | apply eqb_refl].
Qed.

(** [detect_letter_type] answers with one of the two letter types, and with
    the friendly one exactly when the argument is given, is not empty, and
    once trimmed and lowered is one of the four friendly names; everything
    else, an absent or unknown type included, is official. *)
Theorem detect_letter_type_is_friendly_only_for_friendly_names
    (lower : str -> str) (letter_type_arg : option str) :
  (detect_letter_type lower letter_type_arg = lit "официальное"
   \/ detect_letter_type lower letter_type_arg = lit "дружеское")
  /\ (detect_letter_type lower letter_type_arg = lit "дружеское"
      <-> exists arg,
            letter_type_arg = Some arg /\ arg <> []
            /\ In (lower (strip arg))
                 [lit "др"; lit "дружеское"; lit "friendly"; lit "informal"]).
Proof.
  assert (Hdiff : lit "официальное" <> lit "дружеское")
    by (vm_compute; discriminate).
  unfold detect_letter_type.
  destruct letter_type_arg as [arg|].
  2:{ split; [now left|]. split; [intros H; now destruct Hdiff|].
      intros [arg [H _]]. discriminate H. }
  destruct arg as [|c arg].
  { split; [now left|]. split; [intros H; now destruct Hdiff|].
    intros [arg [H [Hne _]]]. injection H as <-. now destruct Hne. }
  cbn [is_empty].
  destruct (existsb (eqb (lower (strip (c :: arg))))
              [lit "оф"; lit "официальное"; lit "formal"; lit "official"])
    eqn:Hoff.
  { split; [now left|]. split; [intros H; now destruct Hdiff|].
    intros [arg' [H [_ Hin]]]. injection H as <-.
    apply existsb_eqb_In in Hoff. exfalso.
    revert Hoff Hin. generalize (lower (strip (c :: arg))). intros s Hoff Hin.
    simpl in Hin.
    destruct Hin as [<- | [<- | [<- | [<- | []]]]];
      apply existsb_eqb_In in Hoff; vm_compute in Hoff; discriminate Hoff. }
  destruct (existsb (eqb (lower (strip (c :: arg))))
              [lit "др"; lit "дружеское"; lit "friendly"; lit "informal"])
    eqn:Hfr.
  - split; [now right|]. split; [|reflexivity].
    intros _. exists (c :: arg). split; [reflexivity|].
    split; [discriminate|]. now apply existsb_eqb_In.
  - split; [now left|]. split; [intros H; now destruct Hdiff|].
    intros [arg' [H [_ Hin]]]. injection H as <-.
    apply existsb_eqb_In in Hin. congruence.
Qed.

Lemma replace_char_removes (a b : codepoint) (s : str) :
  a <> b -> existsb (fun c => (c =? a)%N) (replace_char a b s) = false.
Proof.
  intros Hab. induction s as [|c s IH]; simpl; [reflexivity|].
  rewrite IH, orb_false_r.
  destruct (c =? a)%N eqn:Hc; [|exact Hc].
  apply N.eqb_neq. congruence.
Qed.

(** The final letter is the header of the language (the English one only
    for [en]), the topic, a blank line, the body as it is, a blank line, the
    signature and a newline; the signature is put on one line, its newlines
    turned into spaces, and has no white space at either end. *)
Theorem format_final_letter_puts_signature_on_one_line
    (topic body signature language : str) :
  let sig := strip (replace_char LF SPACE signature) in
  format_final_letter topic body signature language
  = (if eqb language (lit "en") then lit "Subject: " else lit "Тема: ")
    ++ topic ++ [LF; LF] ++ body ++ [LF; LF] ++ sig ++ [LF]
  /\ existsb (fun c => (c =? LF)%N) sig = false
  /\ is_trimmed sig = true.
Proof.
  intros sig. split; [|split].
  - unfold format_final_letter, eqb. fold sig.
    destruct (list_eq_dec N.eq_dec language (lit "en")); reflexivity.
  - apply strip_keeps_absence, replace_char_removes. discriminate.
  - apply strip_is_trimmed.
Qed.

End Letter.

Section Draft.

Variable S : Type.
Variable E : Engine S.

(** [generate_draft] calls the engine exactly once, with the system turn of
    the letter writer, the prompt as the user turn and the given number of
    new tokens; a draft it returns has no white space at either end. *)
Theorem generate_draft_calls_once_and_trims
    (prompt : str) (max_new_tokens : Z) (st : Store S) :
  let run := generate_draft E prompt max_new_tokens st in
  calls (snd run)
  = calls st
    ++ [CallSingle
          [ {| role := lit "system"; content := draft_system_content |};
            {| role := lit "user"; content := prompt |} ]
          (VInt max_new_tokens)]
  /\ (forall draft,
        fst run = inr draft ->
        is_trimmed draft = true /\ strip draft = draft).
Proof.
  intros run. unfold run, generate_draft, bind, pipe_single, lift, ret.
  match goal with
  | |- context [run_single E ?s ?m ?t] =>
      destruct (run_single E s m t) as [[e | reply] s']
  end.
  - split; [reflexivity|]. intros draft H. discriminate H.
  - destruct (extract reply) as [e | out].
    + split; [reflexivity|]. intros draft H. discriminate H.
    + split; [reflexivity|]. intros draft H. injection H as <-.
      split; [apply strip_is_trimmed | apply strip_idempotent].
Qed.

End Draft.

Section WordsOfCorrections.

Lemma findall_from_break (a : str) (c : codepoint) (rest cur : str) :
  word_char c = false ->
  findall_from cur (a ++ c :: rest)
  = findall_from cur a ++ findall_from [] rest.
Proof.
  intros Hc. revert cur. induction a as [|x a IH]; intros cur; simpl.
  - now rewrite Hc.
  - destruct (word_char x); [apply IH|].
    now rewrite IH, app_assoc.
Qed.

Lemma findall_app_sep (a sep b : str) :
  sep <> [] -> existsb word_char sep = false ->
  findall (a ++ sep ++ b) = findall a ++ findall b.
Proof.
  intros Hne Hsep. destruct sep as [|c sep]; [congruence|].
  simpl in Hsep. apply orb_false_iff in Hsep as [Hc Hsep].
  unfold findall. simpl.
  now rewrite (@findall_from_break a c (sep ++ b) [] Hc), findall_from_sep.
Qed.

Lemma count_words_app_sep (a sep b : str) :
  sep <> [] -> existsb word_char sep = false ->
  count_words (a ++ sep ++ b) = (count_words a + count_words b)%Z.
Proof.
  intros Hne Hsep. unfold count_words.
  rewrite (@findall_app_sep a sep b Hne Hsep), length_app. lia.
Qed.

(** Words add up across a separator: when two texts are joined by a
    non-empty stretch without word characters, the word count of the whole
    is the sum of the two word counts. *)
Theorem count_words_adds_up_across_separator (a sep b : str) :
  sep <> [] -> existsb word_char sep = false ->
  count_words (a ++ sep ++ b) = (count_words a + count_words b)%Z.
Proof. apply count_words_app_sep. Qed.

Lemma count_words_correction_text (body : str) :
  count_words (correction_text body)
  = (count_words body
     + if (count_words body <? MIN_WORDS)%Z then 4 else 6)%Z.
Proof.
  unfold correction_text, expand_suffix, shorten_suffix.
  destruct (count_words body <? MIN_WORDS)%Z;
    rewrite count_words_app_sep by (discriminate || reflexivity);
    reflexivity.
Qed.

(** The instruction of a correction is counted with the body: the text
    submitted for a body that is too short has 4 words more than the body,
    and the text submitted for any other rejected body has 6 words more. *)
Theorem correction_text_adds_the_words_of_the_instruction (body : str) :
  count_words (correction_text body)
  = (count_words body
     + if (count_words body <? MIN_WORDS)%Z then 4 else 6)%Z.
Proof. apply count_words_correction_text. Qed.

End WordsOfCorrections.

Section Convergence.

Variable S : Type.
Variable tg : StyleTransfer S.
Variable style : str.

Lemma in_bounds_short (w : Z) : (w < MIN_WORDS)%Z -> in_bounds w = false.
Proof.
  intros H. unfold in_bounds. apply andb_false_iff. left.
  apply Z.leb_gt. exact H.
Qed.

(** With an engine whose reply to the correction of a body that is too
    short has [d] words more than that body, [d] between 1 and 51, the loop
    started on a short body that [tries] such steps bring to [MIN_WORDS]
    returns a body within the bounds, after as many calls as steps of [d]
    words separate the two bodies. *)
Theorem refinement_converges_with_growing_replies (d : Z) (tries : nat) :
  (1 <= d <= 51)%Z ->
  (forall s body,
      (count_words body < MIN_WORDS)%Z ->
      exists reply s',
        tg s (correction_text body) style = (inr reply, s')
        /\ count_words reply = (count_words body + d)%Z) ->
  forall (body : str) (st : TransferStore S),
    (count_words body < MIN_WORDS)%Z ->
    (MIN_WORDS <= count_words body + Z.of_nat tries * d)%Z ->
    exists body' log s',
      refine tg style tries body st = (inr body', (s', snd st ++ log))
      /\ in_bounds (count_words body') = true
      /\ (length log <= tries)%nat
      /\ count_words body'
         = (count_words body + Z.of_nat (length log) * d)%Z.
Proof.
  intros Hd Hengine. induction tries as [|k IH]; intros body st Hshort Hreach.
  - simpl in Hreach. lia.
  - rewrite refine_reject by now apply in_bounds_short.
    destruct (Hengine (fst st) body Hshort) as [reply [s1 [Hcall Hcount]]].
    rewrite Hcall.
    destruct (Z.ltb_spec (count_words reply) MIN_WORDS) as [Hlt | Hge].
    + destruct (IH reply
                  (s1, snd st
                       ++ [mkCall (correction_text body) style (inr reply)])
                  Hlt)
        as [body' [log [s' [Hrun [Hin [Hlen Hwords]]]]]].
      { rewrite Hcount. rewrite Nat2Z.inj_succ in Hreach. nia. }
      exists body', (mkCall (correction_text body) style (inr reply) :: log), s'.
      split; [rewrite Hrun; simpl; now rewrite <- app_assoc|].
      split; [assumption|]. split; [simpl; lia|].
      rewrite Hwords, Hcount. cbn [length]. rewrite Nat2Z.inj_succ. nia.
    + assert (Hin : in_bounds (count_words reply) = true).
      { unfold in_bounds. apply andb_true_iff.
        split; apply Z.leb_le; [exact Hge|].
        unfold MIN_WORDS, MAX_WORDS in *. lia. }
      rewrite refine_accept by assumption.
      exists reply, [mkCall (correction_text body) style (inr reply)], s1.
      split; [reflexivity|]. split; [assumption|].
      split; [simpl; lia|]. rewrite Hcount. cbn [length].
      change (Z.of_nat 1) with 1%Z. lia.
Qed.


End Convergence.

Section MainCalls.

Variable S : Type.
Variable tg : StyleTransfer S.


End MainCalls.

Section RoundTrip.

Lemma splitlines_from_line (x cur rest : str) :
  existsb is_linebreak x = false ->
  splitlines_from cur (x ++ rest) = splitlines_from (rev x ++ cur) rest.
Proof.
  revert cur. induction x as [|c x IH]; intros cur Hx; [reflexivity|].
  simpl in Hx. apply orb_false_iff in Hx as [Hc Hx].
  simpl. rewrite Hc, IH by assumption. now rewrite <- app_assoc.
Qed.

(** Writing and reading back: when no answer is empty and no answer holds
    a line boundary, the lines of the answers joined by newlines are the
    answers again. *)
Theorem splitlines_of_joined_lines (answers : list str) :
  Forall (fun a => a <> [] /\ existsb is_linebreak a = false) answers ->
  splitlines (join [LF] answers) = answers.
Proof.
  unfold splitlines. induction 1 as [|a rest [Hne Hlb] Hrest IH];
    [reflexivity|].
  cbn [join]. destruct rest as [|b rest'].
  - rewrite <- (app_nil_r a) at 1.
    rewrite splitlines_from_line by assumption. rewrite app_nil_r. simpl.
    destruct (rev a) eqn:Hr; [|now rewrite <- Hr, rev_involutive].
    apply (f_equal (@rev _)) in Hr. rewrite rev_involutive in Hr.
    now destruct Hne.
  - rewrite splitlines_from_line by assumption. rewrite app_nil_r.
    cbn [app splitlines_from]. cbn [is_linebreak].
    change (is_linebreak LF) with true. cbn iota.
    change (LF =? CR)%N with false. cbn iota.
    now rewrite rev_involutive, IH.
Qed.

End RoundTrip.

(* ===================================================================== *)
(** ** Further runs on concrete inputs *)
(* ===================================================================== *)

Example splitlines_mixed_boundaries :
  splitlines (lit "a" ++ [CR; LF] ++ lit "b" ++ [LF; LF] ++ lit "c" ++ [CR]
              ++ lit "d" ++ [LF])
  = [lit "a"; lit "b"; []; lit "c"; lit "d"]
  /\ splitlines [] = []
  /\ splitlines [LF] = [[]].
Proof. repeat split; reflexivity. Qed.

Example file_mode_run :
  main_cli echo_engine
    (one_file_world (lit "input.txt")
       (lit "  one " ++ [LF; LF] ++ lit "two" ++ [LF]) [])
    {| input_file := lit "input.txt"; output := lit "output.txt";
       realtime := false; style := lit "Официальный"; tokens := 50 |}
    (tt, [])
  = (([Print init_ok_text;
       WriteFile (lit "output.txt")
         (lit "Текст: " ++ [QUOTE] ++ lit "one" ++ [QUOTE; LF]
          ++ lit "Стиль: Официальный" ++ [LF]
          ++ lit "Текст: " ++ [QUOTE] ++ lit "two" ++ [QUOTE; LF]
          ++ lit "Стиль: Официальный")],
      Returned),
     (tt, [CallBatch
             [buildConversation (lit "Официальный") (lit "one");
              buildConversation (lit "Официальный") (lit "two")]
             16 (VInt 50)])).
Proof. vm_compute. reflexivity. Qed.

Example file_mode_missing_file :
  fst (main_cli echo_engine (one_file_world (lit "input.txt") [] [])
         {| input_file := lit "other.txt"; output := lit "output.txt";
            realtime := false; style := lit "Официальный"; tokens := 50 |}
         (tt, []))
  = ([Print init_ok_text;
      Print (open_error_text
               (mkExc (OtherError "FileNotFoundError") (lit "other.txt")))],
     Returned).
Proof. vm_compute. reflexivity. Qed.

Example realtime_run :
  main_cli echo_engine
    (one_file_world [] [] [lit "  "; lit " hello "; lit ":q"; lit "ignored"])
    {| input_file := lit "input.txt"; output := lit "output.txt";
       realtime := true; style := lit "Официальный"; tokens := 50 |}
    (tt, [])
  = (([Print init_ok_text; Print quit_hint_text;
       Prompt prompt_text; Print blank_line_text;
       Prompt prompt_text;
       Print (lit "Текст: " ++ [QUOTE] ++ lit "hello" ++ [QUOTE; LF]
              ++ lit "Стиль: Официальный" ++ [LF]);
       Prompt prompt_text],
      Returned),
     (tt, [CallSingle (buildConversation (lit "Официальный") (lit "hello"))
             (VInt 50)])).
Proof. vm_compute. reflexivity. Qed.

Example detect_letter_type_runs :
  detect_letter_type (fun s => s) (Some (lit "  friendly ")) = lit "дружеское"
  /\ detect_letter_type (fun s => s) (Some (lit "оф")) = lit "официальное"
  /\ detect_letter_type (fun s => s) (Some (lit "???")) = lit "официальное"
  /\ detect_letter_type (fun s => s) None = lit "официальное".
Proof. repeat split; reflexivity. Qed.

Lemma inference_rejects_other_input_types_witness :
  inference echo_engine (VStr (lit "official")) (VInt 5) VPipeline VNone
    (Some 200%Z) (tt, [])
  = (inl input_type_error, (tt, []))
  /\ exc_class input_type_error = TypeError.
Proof.
  apply (@inference_rejects_other_input_types unit echo_engine); reflexivity.
Defined.

Lemma inference_submits_only_validated_texts_witness :
  exists s,
    VStr (lit "official") = VStr s /\ VPipeline = VPipeline
    /\ well_formed_call s (VInt 50) (Some 200%Z)
         (CallSingle (buildConversation (lit "official") (lit "hi")) (VInt 50)).
Proof.
  apply (@inference_submits_only_validated_texts unit echo_engine
           (VStr (lit "official")) (VStr (lit " hi ")) VPipeline (VInt 50)
           (Some 200%Z) (tt, []) []); reflexivity.
Defined.

(** An engine that is out of memory. *)
Lemma inference_propagates_engine_errors_witness :
  let e := mkExc (OtherError "RuntimeError") (lit "out of memory") in
  inference (fixed_engine (inl e) (inl e)) (VStr (lit "official"))
    (VStr (lit " hi ")) VPipeline VNone (Some 200%Z) (tt, [])
  = (inl e,
     (tt, [] ++ [CallSingle
                   (buildConversation (lit "official") (strip (lit " hi ")))
                   VNone])).
Proof.
  intros e.
  apply (proj1 (@inference_propagates_engine_errors unit
                  (fixed_engine (inl e) (inl e)) (lit "official") VNone
                  (Some 200%Z) (tt, []) e tt));
    [discriminate | reflexivity | reflexivity].
Defined.

(** A reply with two generated sequences and two turns in the first. *)
Lemma single_answer_is_last_turn_of_first_sequence_witness :
  let m1 := {| role := lit "user"; content := lit "hi" |} in
  let m2 := {| role := lit "assistant"; content := lit "hello" |} in
  let g := {| generated_text := [m1; m2] |} in
  let other := {| generated_text := [m1] |} in
  inference (fixed_engine (inr [g; other]) (inr [])) (VStr (lit "official"))
    (VStr (lit " hi ")) VPipeline VNone (Some 200%Z) (tt, [])
  = (inr (VStr (lit "hello")),
     (tt, [] ++ [CallSingle
                   (buildConversation (lit "official") (strip (lit " hi ")))
                   VNone])).
Proof.
  intros m1 m2 g other.
  pose proof (@single_answer_is_last_turn_of_first_sequence unit
                (fixed_engine (inr [g; other]) (inr [])) (lit "official")
                VNone (Some 200%Z) (lit " hi ") (tt, []) [g; other] tt
                ltac:(discriminate) eq_refl eq_refl) as H.
  cbv zeta in H. destruct H as [H _].
  exact (H g [other] [m1] m2 eq_refl eq_refl).
Defined.

(** One reply for two conversations: one answer. *)
Lemma batch_answers_follow_the_replies_witness :
  let a := echo_reply (buildConversation (lit "official") (lit "x")) in
  let input := [VStr (lit "one"); VStr (lit "two")] in
  exists answers,
    inference (fixed_engine (inr a) (inr [a])) (VStr (lit "official"))
      (VList input) VPipeline VNone (Some 200%Z) (tt, [])
    = (inr (VList (map VStr answers)),
       (tt, [] ++ [CallBatch
                     (map (buildConversation (lit "official"))
                        (surviving (Some 200%Z) input))
                     16 VNone]))
    /\ length answers = length [a]
    /\ Forall2 (fun r x => extract r = inr x) [a] answers.
Proof.
  intros a input.
  pose proof (@batch_answers_follow_the_replies unit
                (fixed_engine (inr a) (inr [a])) (lit "official") VNone
                (Some 200%Z) input (tt, []) [a] tt eq_refl eq_refl eq_refl)
    as H.
  cbv zeta in H. destruct H as [H _]. apply H.
  constructor; [|constructor]. eexists. reflexivity.
Defined.

Lemma limit_respected_by_raw_input_changes_nothing_witness :
  (len (lit " hi ") <= 10)%Z
  /\ inference echo_engine (VStr (lit "official")) (VStr (lit " hi "))
       VPipeline VNone (Some 10%Z) (tt, [])
     = inference echo_engine (VStr (lit "official")) (VStr (lit " hi "))
         VPipeline VNone None (tt, []).
Proof.
  split; [discriminate|].
  apply (proj1 (@limit_respected_by_raw_input_changes_nothing unit echo_engine
                  (lit "official") VNone 10%Z (tt, []))).
  discriminate.
Defined.

Lemma batch_of_surviving_texts_is_the_same_run_witness :
  let input := [VStr (lit " a "); VNone; VStr (lit ""); VStr (lit "b")] in
  surviving (Some 5%Z) input = [lit "a"; lit "b"]
  /\ inference echo_engine (VStr (lit "official")) (VList input) VPipeline
       VNone (Some 5%Z) (tt, [])
     = inference echo_engine (VStr (lit "official"))
         (VList (map VStr (surviving (Some 5%Z) input))) VPipeline VNone
         (Some 5%Z) (tt, []).
Proof.
  intros input. split; [reflexivity|].
  apply (@batch_of_surviving_texts_is_the_same_run unit echo_engine).
  reflexivity.
Defined.

(** A file of blank lines. *)
Lemma file_mode_refuses_long_lines_and_blank_files_witness :
  let content := lit "   " ++ [LF; LF] ++ lit " " ++ [LF] in
  let W := one_file_world (lit "input.txt") content [] in
  let args := {| input_file := lit "input.txt"; output := lit "output.txt";
                 realtime := false; style := lit "Официальный";
                 tokens := 50 |} in
  file_mode echo_engine W args VPipeline (tt, [])
  = (([Print (file_error_text EmptyBatchError)], Returned), (tt, [])).
Proof.
  intros content W args.
  apply (proj2 (@file_mode_refuses_long_lines_and_blank_files unit echo_engine
                  W args (tt, []) content eq_refl)).
  repeat constructor.
Defined.

Lemma count_words_adds_up_across_separator_witness :
  count_words (lit "ab" ++ lit ", " ++ lit "cd")
  = (count_words (lit "ab") + count_words (lit "cd"))%Z.
Proof.
  apply count_words_adds_up_across_separator; [discriminate | reflexivity].
Defined.

(** The engine that returns the text it is given adds the four words of
    the instruction at each call: from 90 words it takes three calls. *)
Lemma refinement_converges_with_growing_replies_witness :
  let body := concat (repeat (lit "слово ") 90) in
  exists body' log s',
    refine echo_transfer (lit "official") 6 body (tt, [])
    = (inr body', (s', [] ++ log))
    /\ in_bounds (count_words body') = true
    /\ (length log <= 6)%nat
    /\ count_words body'
       = (count_words body + Z.of_nat (length log) * 4)%Z.
Proof.
  intros body.
  apply (@refinement_converges_with_growing_replies unit echo_transfer
           (lit "official") 4%Z 6).
  - lia.
  - intros s b Hshort. exists (correction_text b), s.
    split; [reflexivity|].
    rewrite count_words_correction_text.
    apply Z.ltb_lt in Hshort. now rewrite Hshort.
  - reflexivity.
  - discriminate.
Defined.

Lemma splitlines_of_joined_lines_witness :
  splitlines (join [LF] [lit "ab"; lit "c"]) = [lit "ab"; lit "c"].
Proof.
  apply splitlines_of_joined_lines.
  repeat constructor; discriminate.
Defined.
